(** * STEVE: a shallow embedding of the EVE display driver

    The development follows the C++ sources: [SteveDisplay.h] (panel
    profile), [SteveHAL.h] (transport with its default multi-byte helpers)
    and [Steve.h] (wrapping index, transactions, register access, display
    list, co-processor command queue, command macros and [Begin]).

    Fixed-width integers are modelled as [Z] with the wrap-around of every
    conversion written out.  The transport is a log of the calls made on the
    abstract HAL primitives, together with the stream of bytes the chip
    answers with. *)

From Stdlib Require Import ZArith List Lia Bool.
From stdpp Require Import base option list gmap.

Local Open Scope Z_scope.

(** ** Fixed-width integers *)

Definition to_uint8 (x : Z) : Z := x mod 2 ^ 8.
Definition to_uint16 (x : Z) : Z := x mod 2 ^ 16.
Definition to_uint32 (x : Z) : Z := x mod 2 ^ 32.

(** Conversion to [int16_t]: the value modulo 2^16, in the signed range. *)
Definition to_int16 (x : Z) : Z := (x + 2 ^ 15) mod 2 ^ 16 - 2 ^ 15.

Arguments to_uint8 : simpl never.
Arguments to_uint16 : simpl never.
Arguments to_uint32 : simpl never.
Arguments to_int16 : simpl never.

Definition is_uint8 (x : Z) : Prop := 0 <= x < 2 ^ 8.
Definition is_uint16 (x : Z) : Prop := 0 <= x < 2 ^ 16.
Definition is_uint32 (x : Z) : Prop := 0 <= x < 2 ^ 32.
Definition is_int16 (x : Z) : Prop := - 2 ^ 15 <= x < 2 ^ 15.

(** Width of [int] on the target.  On AVR Arduino boards [int] has 16 bits,
    so [uint16_t] operands are computed on as [unsigned int]; where [int] is
    wider (the Windows build, 32-bit Arduino cores) [uint16_t] operands are
    promoted to [int] before any arithmetic or comparison. *)
Inductive int_model := Int16 | Int32.

(** ** The wrapping index ([Steve::Index<max_value>]) *)

(** The class has the single data member [_index]. *)
Record Index := { _index : Z }.

(** [Wrap]: [_index &= (max_value - 1)]. *)
Definition Wrap (max_value : Z) (i : Index) : Index :=
  {| _index := Z.land (_index i) (max_value - 1) |}.

(** Constructor, from a [uint16_t] initial value. *)
Definition Index_new (max_value : Z) (initial_value : Z) : Index :=
  Wrap max_value {| _index := to_uint16 initial_value |}.

(** [operator+=] with an [int16_t] operand: the sum is stored back into the
    [uint16_t] member, then wrapped. *)
Definition Index_add_assign (max_value : Z) (i : Index) (value : Z) : Index :=
  Wrap max_value {| _index := to_uint16 (_index i + to_int16 value) |}.

(** [operator-=]. *)
Definition Index_sub_assign (max_value : Z) (i : Index) (value : Z) : Index :=
  Wrap max_value {| _index := to_uint16 (_index i - to_int16 value) |}.

(** [operator+] and [operator-]: a copy made with the constructor, then the
    in-place operator. *)
Definition Index_add (max_value : Z) (i : Index) (value : Z) : Index :=
  Index_add_assign max_value (Index_new max_value (_index i)) value.

Definition Index_sub (max_value : Z) (i : Index) (value : Z) : Index :=
  Index_sub_assign max_value (Index_new max_value (_index i)) value.

(** [index()]. *)
Definition index (i : Index) : Z := _index i.

(** A finite sequence of in-place operations on one index. *)
Inductive index_op := OpAdd (value : Z) | OpSub (value : Z).

Definition apply_op (max_value : Z) (i : Index) (o : index_op) : Index :=
  match o with
  | OpAdd v => Index_add_assign max_value i v
  | OpSub v => Index_sub_assign max_value i v
  end.

Definition run_ops (max_value : Z) (seed : Z) (ops : list index_op) : Index :=
  fold_left (apply_op max_value) ops (Index_new max_value seed).

(** The mathematical, unbounded sum of the seed and the signed deltas. *)
Definition signed_sum (seed : Z) (ops : list index_op) : Z :=
  fold_left (fun a o => match o with OpAdd v => a + v | OpSub v => a - v end) ops seed.

(** ** Memory map and constants of [Steve] *)

Definition RAM_DL : Z := 0x300000.
Definition RAM_CMD : Z := 0x308000.
Definition RAM_DL_SIZE : Z := 8 * 1024.
Definition RAM_CMD_SIZE : Z := 4 * 1024.
Definition READ_INDEX_ERROR : Z := 0x0FFF.

Definition HOSTCMD_ACTIVE : Z := 0x000000.
Definition HOSTCMD_READ : Z := 0x000000.
Definition HOSTCMD_CLKEXT : Z := 0x440000.
Definition HOSTCMD_CLKINT : Z := 0x480000.
Definition HOSTCMD_CLKSEL : Z := 0x610000.
Definition HOSTCMD_PINDRIVE : Z := 0x700000.
Definition HOSTCMD_WRITE : Z := 0x800000.

Definition REG_ID : Z := 0x302000.
Definition REG_FREQUENCY : Z := 0x30200C.
Definition REG_CPURESET : Z := 0x302020.
Definition REG_HCYCLE : Z := 0x30202C.
Definition REG_HOFFSET : Z := 0x302030.
Definition REG_HSIZE : Z := 0x302034.
Definition REG_HSYNC0 : Z := 0x302038.
Definition REG_HSYNC1 : Z := 0x30203C.
Definition REG_VCYCLE : Z := 0x302040.
Definition REG_VOFFSET : Z := 0x302044.
Definition REG_VSIZE : Z := 0x302048.
Definition REG_VSYNC0 : Z := 0x30204C.
Definition REG_VSYNC1 : Z := 0x302050.
Definition REG_DLSWAP : Z := 0x302054.
Definition REG_OUTBITS : Z := 0x30205C.
Definition REG_DITHER : Z := 0x302060.
Definition REG_SWIZZLE : Z := 0x302064.
Definition REG_CSPREAD : Z := 0x302068.
Definition REG_PCLK_POL : Z := 0x30206C.
Definition REG_PCLK : Z := 0x302070.
Definition REG_GPIOX : Z := 0x30209C.
Definition REG_PWM_HZ : Z := 0x3020D0.
Definition REG_PWM_DUTY : Z := 0x3020D4.
Definition REG_CMD_READ : Z := 0x3020F8.
Definition REG_CMD_WRITE : Z := 0x3020FC.
Definition REG_TOUCH_MODE : Z := 0x302104.
Definition REG_TOUCH_RZTHRESH : Z := 0x302118.
Definition REG_CHIP_ID : Z := 0x0C0000.

Definition ENC_CMD_DISPLAY : Z := 0x00000000.
Definition ENC_CMD_CLEAR_COLOR : Z := 0x02000000.
Definition ENC_CMD_CLEAR : Z := 0x26000000.
Definition ENC_CMD_CALIBRATE : Z := 0xFFFFFF15.
Definition ENC_CMD_MEMCRC : Z := 0xFFFFFF18.
Definition ENC_CMD_GETPTR : Z := 0xFFFFFF23.
Definition ENC_CMD_GETPROPS : Z := 0xFFFFFF25.
Definition ENC_CMD_GETMATRIX : Z := 0xFFFFFF33.
Definition ENC_CMD_FLASHFAST : Z := 0xFFFFFF4A.
Definition ENC_CMD_CALIBRATESUB : Z := 0xFFFFFF60.

Definition DLSWAP_FRAME : Z := 0x2.

(** ** The panel profile ([struct SteveDisplay]) *)

Definition CHIPID_ANY : Z := 0.
Definition CLKSEL_DEFAULT : Z := 0x00.

Record SteveDisplay := {
  _clkext : bool;
  _clksel : Z;
  _chipid : Z;
  _frequency : Z;
  _lcd10ma : bool;
  _cspread : bool;
  _dither : bool;
  _outbits : Z;
  _hsize : Z;
  _hcycle : Z;
  _hoffset : Z;
  _hsync0 : Z;
  _hsync1 : Z;
  _vsize : Z;
  _vcycle : Z;
  _voffset : Z;
  _vsync0 : Z;
  _vsync1 : Z;
  _swizzle : Z;
  _pclkpol : Z;
  _pclk : Z;
  _pindrivetable : option (list Z)
}.

(** The constructor.  The arguments are [uint16_t] (the last three
    [uint8_t]); each sum is computed and then stored in a [uint16_t]
    member.  [_pindrivetable] is [NULL] ([None]) or the bytes found at the
    pointer. *)
Definition SteveDisplay_new
    (width hfrontporch hsyncwidth hbackporch hpadding : Z)
    (height vfrontporch vsyncheight vbackporch vpadding : Z)
    (pclk pclkpol swizzle : Z) : SteveDisplay :=
  {| _clkext := false;
     _clksel := CLKSEL_DEFAULT;
     _chipid := CHIPID_ANY;
     _frequency := 0;
     _lcd10ma := false;
     _cspread := false;
     _dither := false;
     _outbits := 0;
     _hsize := width;
     _hcycle := to_uint16 (hfrontporch + hsyncwidth + hbackporch + width + hpadding);
     _hoffset := to_uint16 (hfrontporch + hsyncwidth + hbackporch);
     _hsync0 := hfrontporch;
     _hsync1 := to_uint16 (hfrontporch + hsyncwidth);
     _vsize := height;
     _vcycle := to_uint16 (vfrontporch + vsyncheight + vbackporch + height + vpadding);
     _voffset := to_uint16 (vfrontporch + vsyncheight + vbackporch);
     _vsync0 := vfrontporch;
     _vsync1 := to_uint16 (vfrontporch + vsyncheight);
     _swizzle := swizzle;
     _pclkpol := pclkpol;
     _pclk := pclk;
     _pindrivetable := None |}.

(** The profile of the CFA480128 example sketch. *)
Definition cfa480128profile : SteveDisplay :=
  SteveDisplay_new 480 24 11 6 521 128 4 1 3 1 7 1 0.

(** ** State passing *)

(** Member functions thread the object they act on: a computation returns
    its result together with the new state. *)
Definition St (S A : Type) : Type := S -> A * S.

Definition ret {S A : Type} (a : A) : St S A := fun s => (a, s).

Definition bind {S A B : Type} (m : St S A) (k : A -> St S B) : St S B :=
  fun s => let (a, s') := m s in k a s'.

Definition get {S : Type} : St S S := fun s => (s, s).

Definition modify {S : Type} (f : S -> S) : St S unit := fun s => (tt, f s).

Notation "'do' x <- m ; k" := (bind m (fun x => k))
  (at level 10, x name, m at level 100, k at level 200).
Notation "'do_' m ; k" := (bind m (fun _ => k))
  (at level 10, m at level 100, k at level 200).

(** ** The transport ([class SteveHAL]) *)

(** One entry per call of a pure virtual function of the HAL. *)
Inductive event :=
| EvInit (slow : bool)
| EvPause (pause : bool)
| EvPower (enable : bool)
| EvSelect (enable : bool)
| EvTransfer (mosi miso : Z)
| EvDelay (ms : Z).

(** [trace] holds the calls made so far, oldest first; [selected] is the
    state of the chip-select line; [chip n] is the byte the chip puts on the
    bus during transfer number [n], and [transfers] counts the transfers
    made so far. *)
Record SteveHAL := {
  trace : list event;
  selected : bool;
  chip : nat -> Z;
  transfers : nat
}.

Definition log (e : event) (h : SteveHAL) : SteveHAL :=
  {| trace := trace h ++ [e];
     selected := selected h;
     chip := chip h;
     transfers := transfers h |}.

Definition Init (slow : bool) : St SteveHAL unit := modify (log (EvInit slow)).
Definition HAL_Pause (pause : bool) : St SteveHAL unit := modify (log (EvPause pause)).
Definition Power (enable : bool) : St SteveHAL unit := modify (log (EvPower enable)).
Definition Delay (ms : Z) : St SteveHAL unit := modify (log (EvDelay ms)).

(** [Select] reports whether the chip-select line changed. *)
Definition Select (enable : bool) : St SteveHAL bool :=
  fun h =>
    (negb (eqb (selected h) enable),
     {| trace := trace h ++ [EvSelect enable];
        selected := enable;
        chip := chip h;
        transfers := transfers h |}).

(** [Transfer] sends one byte and returns the byte received meanwhile. *)
Definition Transfer (value : Z) : St SteveHAL Z :=
  fun h =>
    let received := to_uint8 (chip h (transfers h)) in
    (received,
     {| trace := trace h ++ [EvTransfer (to_uint8 value) received];
        selected := selected h;
        chip := chip h;
        transfers := S (transfers h) |}).

Definition Send8 (value : Z) : St SteveHAL unit :=
  do_ Transfer value; ret tt.

Definition Send16 (value : Z) : St SteveHAL unit :=
  let value := to_uint16 value in
  do_ Transfer (to_uint8 value);
  do_ Transfer (to_uint8 (Z.shiftr value 8));
  ret tt.

Definition Send32 (value : Z) : St SteveHAL unit :=
  let value := to_uint32 value in
  do_ Transfer (to_uint8 value);
  do_ Transfer (to_uint8 (Z.shiftr value 8));
  do_ Transfer (to_uint8 (Z.shiftr value 16));
  do_ Transfer (to_uint8 (Z.shiftr value 24));
  ret tt.

Definition Receive8 : St SteveHAL Z := Transfer 0.

Definition Receive16 : St SteveHAL Z :=
  do b0 <- Transfer 0;
  let result := to_uint16 b0 in
  do b1 <- Transfer 0;
  ret (to_uint16 (Z.lor result (Z.shiftl b1 8))).

Definition Receive32 : St SteveHAL Z :=
  do b0 <- Transfer 0;
  let result := to_uint32 b0 in
  do b1 <- Transfer 0;
  let result := to_uint32 (Z.lor result (Z.shiftl b1 8)) in
  do b2 <- Transfer 0;
  let result := to_uint32 (Z.lor result (Z.shiftl b2 16)) in
  do b3 <- Transfer 0;
  ret (to_uint32 (Z.lor result (Z.shiftl b3 24))).

(** [SendAlignmentBytes]: the loop [while (result % 4) { Send8(0); result++; }]
    runs at most three times. *)
Fixpoint SendAlignmentBytes_loop (fuel : nat) (result : Z) : St SteveHAL Z :=
  if result mod 4 =? 0 then ret result
  else
    match fuel with
    | O => ret result
    | S fuel' =>
        do_ Send8 0;
        SendAlignmentBytes_loop fuel' (to_uint32 (result + 1))
    end.

Definition SendAlignmentBytes (num : Z) : St SteveHAL Z :=
  SendAlignmentBytes_loop 3 (to_uint32 num).

(** [SendBuffer]: the buffer is the list of its [len] bytes. *)
Fixpoint SendBuffer_loop (data : list Z) (result : Z) : St SteveHAL Z :=
  match data with
  | [] => ret result
  | b :: data' =>
      do_ Send8 b;
      SendBuffer_loop data' (to_uint32 (result + 1))
  end.

Definition SendBuffer (data : list Z) : St SteveHAL Z := SendBuffer_loop data 0.

(** The loop condition [result < maxlen - 1] of [SendString], on two
    [uint16_t] operands: unsigned 16-bit arithmetic where [int] has 16
    bits, [int] arithmetic after promotion where it is wider. *)
Definition SendString_continue (abi : int_model) (result maxlen : Z) : bool :=
  match abi with
  | Int16 => result <? to_uint16 (maxlen - 1)
  | Int32 => result <? maxlen - 1
  end.

(** A C string is given by the characters at the pointer; reading past the
    end of the list reads the terminating nul. *)
Fixpoint SendString_loop (abi : int_model) (s : list Z) (maxlen result : Z)
  : St SteveHAL Z :=
  if SendString_continue abi result maxlen then
    match s with
    | [] => ret result
    | c :: s' =>
        if c =? 0 then ret result
        else
          do_ Send8 c;
          SendString_loop abi s' maxlen (to_uint16 (result + 1))
    end
  else ret result.

(** [SendString]: [message] is [None] for a NULL pointer. *)
Definition SendString (abi : int_model) (message : option (list Z)) (maxlen : Z)
  : St SteveHAL Z :=
  let s := match message with Some s => s | None => [] end in
  do result <- SendString_loop abi s (to_uint16 maxlen) 0;
  do_ Send8 0;
  ret (to_uint16 (result + 1)).

(** Length of a C string: the characters before the first nul. *)
Fixpoint strlen (s : list Z) : nat :=
  match s with
  | [] => O
  | c :: s' => if c =? 0 then O else S (strlen s')
  end.

(** The bytes put on the bus by the transfers of a trace, in order. *)
Definition sent (t : list event) : list Z :=
  flat_map (fun e => match e with EvTransfer b _ => [b] | _ => [] end) t.

(** ** The driver ([class Steve]) *)

(** The state a member function can touch: the transport, the two wrapping
    indices, and the caller's objects that are passed by pointer as output
    parameters ([CmdIndex *] and [bool *]), addressed by location. *)
Record World := {
  _hal : SteveHAL;
  _dl_index : Index;
  _cmd_index : Index;
  cmdindex_cells : gmap nat Index;
  bool_cells : gmap nat bool
}.

Definition hal {A : Type} (m : St SteveHAL A) : St World A :=
  fun w =>
    let (a, h) := m (_hal w) in
    (a, {| _hal := h;
           _dl_index := _dl_index w;
           _cmd_index := _cmd_index w;
           cmdindex_cells := cmdindex_cells w;
           bool_cells := bool_cells w |}).

Definition set_dl_index (i : Index) : St World unit :=
  modify (fun w =>
    {| _hal := _hal w;
       _dl_index := i;
       _cmd_index := _cmd_index w;
       cmdindex_cells := cmdindex_cells w;
       bool_cells := bool_cells w |}).

Definition set_cmd_index (i : Index) : St World unit :=
  modify (fun w =>
    {| _hal := _hal w;
       _dl_index := _dl_index w;
       _cmd_index := i;
       cmdindex_cells := cmdindex_cells w;
       bool_cells := bool_cells w |}).

(** [*name = i] for a [CmdIndex *name]. *)
Definition store_cmdindex (name : nat) (i : Index) : St World unit :=
  modify (fun w =>
    {| _hal := _hal w;
       _dl_index := _dl_index w;
       _cmd_index := _cmd_index w;
       cmdindex_cells := <[name := i]> (cmdindex_cells w);
       bool_cells := bool_cells w |}).

(** [*pError = b]. *)
Definition store_bool (pError : nat) (b : bool) : St World unit :=
  modify (fun w =>
    {| _hal := _hal w;
       _dl_index := _dl_index w;
       _cmd_index := _cmd_index w;
       cmdindex_cells := cmdindex_cells w;
       bool_cells := <[pError := b]> (bool_cells w) |}).

(** *** Transactions *)

Definition EndTransaction : St World unit :=
  do_ hal (Select false); ret tt.

Definition BeginTransaction (data24 : Z) : St World unit :=
  do_ EndTransaction;
  do_ hal (Select true);
  do_ hal (Send8 (to_uint8 (Z.shiftr data24 16)));
  do_ hal (Send8 (to_uint8 (Z.shiftr data24 8)));
  hal (Send8 (to_uint8 data24)).

Definition BeginMemoryTransaction (address22 : Z) (write : bool) : St World unit :=
  do_ BeginTransaction
        (to_uint32 (Z.lor (if write then HOSTCMD_WRITE else HOSTCMD_READ) address22));
  if negb write then hal (Send8 0) else ret tt.

Definition HostCommand (hostcmd : Z) (parameter : Z) : St World unit :=
  BeginTransaction (to_uint32 (Z.lor hostcmd (Z.shiftl (to_uint8 parameter) 8))).

(** *** Memory operations *)

Definition RegRead8 (address22 : Z) : St World Z :=
  do_ BeginMemoryTransaction address22 false;
  hal Receive8.

Definition RegRead16 (address22 : Z) : St World Z :=
  do_ BeginMemoryTransaction address22 false;
  hal Receive16.

Definition RegRead32 (address22 : Z) : St World Z :=
  do_ BeginMemoryTransaction address22 false;
  hal Receive32.

(** [RegWait8]: the loop [while (result)] counts the [uint8_t] [result]
    down from [maxtries]. *)
Fixpoint RegWait8_loop (address22 value delay_between_tries : Z) (result : nat)
  : St World Z :=
  match result with
  | O => ret 0
  | S result' =>
      do read_value <- RegRead8 address22;
      if read_value =? value then ret (Z.of_nat result')
      else
        do_ hal (Delay delay_between_tries);
        RegWait8_loop address22 value delay_between_tries result'
  end.

Definition RegWait8 (address22 value maxtries delay_between_tries : Z) : St World Z :=
  RegWait8_loop address22 (to_uint8 value) delay_between_tries
    (Z.to_nat (to_uint8 maxtries)).

Definition RegWrite8 (address22 value : Z) : St World unit :=
  do_ BeginMemoryTransaction address22 true;
  hal (Send8 value).

Definition RegWrite16 (address22 value : Z) : St World unit :=
  do_ BeginMemoryTransaction address22 true;
  hal (Send16 value).

Definition RegWrite32 (address22 value : Z) : St World unit :=
  do_ BeginMemoryTransaction address22 true;
  hal (Send32 value).

(** *** Display list *)

Definition DLResetIndex (index : Z) : St World unit :=
  set_dl_index (Index_new RAM_DL_SIZE index).

Definition DLAdd (value : Z) : St World Index :=
  do w <- get;
  do_ RegWrite32 (RAM_DL + index (_dl_index w)) value;
  let i := Index_add_assign RAM_DL_SIZE (_dl_index w) 4 in
  do_ set_dl_index i;
  ret i.

(** *** Co-processor queue *)

Definition CmdRead32 (cmdindex : Index) : St World Z :=
  RegRead32 (RAM_CMD + index cmdindex).

Definition CmdInitWriteIndex : St World Index :=
  do r <- RegRead16 REG_CMD_WRITE;
  let i := Index_new RAM_CMD_SIZE r in
  do_ set_cmd_index i;
  ret i.

Definition CmdGetFreeCmdSpace : St World Z :=
  do r <- RegRead16 REG_CMD_READ;
  do w <- get;
  let used_space := to_uint16 (index (Index_sub RAM_CMD_SIZE (_cmd_index w) r)) in
  let result := to_uint16 (to_uint32 ((RAM_CMD_SIZE - 4) - used_space)) in
  ret result.

Definition Cmd (command : Z) : St World Index :=
  do w <- get;
  do_ BeginMemoryTransaction (RAM_CMD + index (_cmd_index w)) true;
  do_ hal (Send32 command);
  let i := Index_add_assign RAM_CMD_SIZE (_cmd_index w) 4 in
  do_ set_cmd_index i;
  ret i.

(** [CmdIsBusy]: [pError] is [None] for the default NULL. *)
Definition CmdIsBusy (pError : option nat) : St World bool :=
  do readindex <- RegRead16 REG_CMD_READ;
  let error := readindex =? READ_INDEX_ERROR in
  do_ match pError with
      | Some p => store_bool p error
      | None => ret tt
      end;
  do w <- get;
  ret (negb error && negb (readindex =? index (_cmd_index w))).

(** *** Command encoding *)

(** The macro [N(value, leftbit, rightbit)]:
    [(((uint32_t)value) & ((1 << (leftbit - rightbit + 1)) - 1)) << rightbit],
    for fields narrower than [int]. *)
Definition ENC_field (value leftbit rightbit : Z) : Z :=
  to_uint32
    (Z.shiftl
       (Z.land (to_uint32 value)
               (to_uint32 (Z.shiftl 1 (leftbit - rightbit + 1) - 1)))
       rightbit).

Definition ENC_CLEAR_COLOR (rgb24 : Z) : Z :=
  Z.lor ENC_CMD_CLEAR_COLOR (ENC_field rgb24 23 0).

Definition ENC_CLEAR (color1 stencil1 tag1 : Z) : Z :=
  Z.lor ENC_CMD_CLEAR
    (Z.lor (Z.lor (ENC_field (to_uint8 color1) 2 2)
                  (ENC_field (to_uint8 stencil1) 1 1))
           (ENC_field (to_uint8 tag1) 0 0)).

Definition ENC_DISPLAY : Z := Z.lor ENC_CMD_DISPLAY 0.

Definition dl_CLEAR_COLOR (rgb24 : Z) : St World Index := DLAdd (ENC_CLEAR_COLOR rgb24).

Definition dl_CLEAR (color1 stencil1 tag1 : Z) : St World Index :=
  DLAdd (ENC_CLEAR color1 stencil1 tag1).

Definition dl_DISPLAY : St World Index := DLAdd ENC_DISPLAY.

(** *** Co-processor commands *)

(** The parameter macros [V2], [V4], [SS], [MM] and [Q4]; a command is the
    comma-separated list of its parameters.  [Q4 None] is [Q4(NULL)]. *)
Inductive cmd_param :=
| V2 (value : Z)
| V4 (value : Z)
| SS (value : option (list Z)) (maxlen : Z)
| MM (value : list Z)
| Q4 (name : option nat).

(** One parameter, acting on the local [int16_t result]. *)
Definition cmd_param_run (abi : int_model) (p : cmd_param) (result : Z) : St World Z :=
  match p with
  | V2 value =>
      do_ hal (Send16 (to_uint16 value));
      ret (to_int16 (result + 2))
  | V4 value =>
      do_ hal (Send32 (to_uint32 value));
      ret (to_int16 (result + 4))
  | SS value maxlen =>
      do n <- hal (SendString abi value maxlen);
      do a <- hal (SendAlignmentBytes n);
      ret (to_int16 (result + a))
  | MM value =>
      do n <- hal (SendBuffer value);
      do a <- hal (SendAlignmentBytes n);
      ret (to_int16 (result + a))
  | Q4 name =>
      do_ match name with
          | Some p =>
              do w <- get;
              store_cmdindex p (Index_add RAM_CMD_SIZE (_cmd_index w) result)
          | None => ret tt
          end;
      do_ hal (Send32 (to_uint32 0));
      ret (to_int16 (result + 4))
  end.

Fixpoint cmd_params_run (abi : int_model) (ps : list cmd_param) (result : Z)
  : St World Z :=
  match ps with
  | [] => ret result
  | p :: ps' =>
      do result' <- cmd_param_run abi p result;
      cmd_params_run abi ps' result'
  end.

(** The macro [CMD(name, declaration, value)]:
    [Cmd(ENC_CMD_name); int16_t result = 0; (void)(value);
     return _cmd_index += result;]. *)
Definition CMD (abi : int_model) (enc_cmd : Z) (value : list cmd_param)
  : St World Index :=
  do_ Cmd enc_cmd;
  do result <- cmd_params_run abi value 0;
  do w <- get;
  let i := Index_add_assign RAM_CMD_SIZE (_cmd_index w) result in
  do_ set_cmd_index i;
  ret i.

Definition cmd_MEMCRC (abi : int_model) (ptr32 num32 : Z) (xresult32 : option nat) :=
  CMD abi ENC_CMD_MEMCRC [V4 ptr32; V4 num32; Q4 xresult32].

Definition cmd_GETMATRIX (abi : int_model) (xa32 xb32 xc32 xd32 xe32 xf32 : option nat) :=
  CMD abi ENC_CMD_GETMATRIX [Q4 xa32; Q4 xb32; Q4 xc32; Q4 xd32; Q4 xe32; Q4 xf32].

Definition cmd_GETPTR (abi : int_model) (xptr : option nat) :=
  CMD abi ENC_CMD_GETPTR [Q4 xptr].

Definition cmd_GETPROPS (abi : int_model) (xptr32 xwidth32 xheight32 : option nat) :=
  CMD abi ENC_CMD_GETPROPS [Q4 xptr32; Q4 xwidth32; Q4 xheight32].

Definition cmd_CALIBRATE (abi : int_model) (xresult32 : option nat) :=
  CMD abi ENC_CMD_CALIBRATE [Q4 xresult32].

Definition cmd_CALIBRATESUB (abi : int_model) (x16 y16 w16 h16 : Z) (xresult32 : option nat) :=
  CMD abi ENC_CMD_CALIBRATESUB [V2 x16; V2 y16; V2 w16; V2 h16; Q4 xresult32].

Definition cmd_FLASHFAST (abi : int_model) (xresult32 : option nat) :=
  CMD abi ENC_CMD_FLASHFAST [Q4 xresult32].

(** *** Initialization *)

(** The virtual functions [Begin] calls; a subclass may override them. *)
Class SteveVirtuals := {
  EarlyInit : St World bool;
  TouchInit : St World bool
}.

Definition Steve_EarlyInit : St World bool := ret true.

Definition Steve_TouchInit : St World bool :=
  do_ RegWrite8 REG_TOUCH_MODE 0;
  do_ RegWrite16 REG_TOUCH_RZTHRESH 0;
  ret true.

(** The implementations of the base class. *)
Definition Steve_base : SteveVirtuals :=
  {| EarlyInit := Steve_EarlyInit; TouchInit := Steve_TouchInit |}.

Definition Pause (pause : bool) : St World unit :=
  do_ hal (HAL_Pause pause);
  if pause then do_ hal (Select false); ret tt else ret tt.

Definition End : St World unit :=
  do_ Pause true;
  do_ hal (Delay 20);
  do_ hal (Power false);
  hal (Delay 6).

(** The loop over the pin drive table,
    [for (p = _pindrivetable; *p != 0xFF; p++)]; the modelled memory ends
    with the list. *)
Fixpoint pindrive_loop (p : list Z) : St World unit :=
  match p with
  | [] => ret tt
  | b :: p' =>
      if to_uint8 b =? 0xFF then ret tt
      else
        do_ HostCommand HOSTCMD_PINDRIVE b;
        pindrive_loop p'
  end.

(** The [return] statement at which [Begin] leaves. *)
Inductive begin_exit :=
| ExitTimeoutId
| ExitTimeoutCpuReset
| ExitChipIdMismatch
| ExitEarlyInit
| ExitTouchInit
| ExitSuccess.

Definition begin_result (e : begin_exit) : bool :=
  match e with ExitSuccess => true | _ => false end.

Definition Begin_exit `{SteveVirtuals} (_profile : SteveDisplay) : St World begin_exit :=
  do_ End;
  do_ hal (Power true);
  do_ hal (Delay 21);
  do_ hal (Select true);
  do_ hal (Init true);
  do_ (if _clkext _profile then HostCommand HOSTCMD_CLKEXT 0
       else HostCommand HOSTCMD_CLKINT 0);
  do_ HostCommand HOSTCMD_CLKSEL (_clksel _profile);
  do_ HostCommand HOSTCMD_ACTIVE 0;
  do_ hal (Delay 40);
  do_ hal (Init false);
  do id <- RegWait8 REG_ID 0x7C 250 1;
  if id =? 0 then ret ExitTimeoutId else
  do cpureset <- RegWait8 REG_CPURESET 0 250 1;
  if cpureset =? 0 then ret ExitTimeoutCpuReset else
  do mismatch <-
    (if negb (_chipid _profile =? CHIPID_ANY) then
       do chip_id <- RegRead32 REG_CHIP_ID;
       ret (negb (_chipid _profile =? chip_id))
     else ret false);
  if (mismatch : bool) then ret ExitChipIdMismatch else
  do_ (if negb (_frequency _profile =? 0)
       then RegWrite32 REG_FREQUENCY (_frequency _profile) else ret tt);
  do_ CmdInitWriteIndex;
  do early <- EarlyInit;
  if negb early then ret ExitEarlyInit else
  do_ RegWrite8 REG_PCLK 0;
  do_ RegWrite8 REG_PWM_DUTY 0;
  do_ RegWrite16 REG_HSIZE (_hsize _profile);
  do_ RegWrite16 REG_HCYCLE (_hcycle _profile);
  do_ RegWrite16 REG_HOFFSET (_hoffset _profile);
  do_ RegWrite16 REG_HSYNC0 (_hsync0 _profile);
  do_ RegWrite16 REG_HSYNC1 (_hsync1 _profile);
  do_ RegWrite16 REG_VSIZE (_vsize _profile);
  do_ RegWrite16 REG_VCYCLE (_vcycle _profile);
  do_ RegWrite16 REG_VOFFSET (_voffset _profile);
  do_ RegWrite16 REG_VSYNC0 (_vsync0 _profile);
  do_ RegWrite16 REG_VSYNC1 (_vsync1 _profile);
  do_ RegWrite8 REG_SWIZZLE (_swizzle _profile);
  do_ RegWrite8 REG_PCLK_POL (_pclkpol _profile);
  do_ (if _lcd10ma _profile
       then do gpiox <- RegRead16 REG_GPIOX;
            RegWrite16 REG_GPIOX (Z.lor gpiox 0x1000)
       else do gpiox <- RegRead16 REG_GPIOX;
            RegWrite16 REG_GPIOX (Z.land gpiox (Z.lnot 0x1000)));
  do_ match _pindrivetable _profile with
      | Some p => pindrive_loop p
      | None => ret tt
      end;
  do_ RegWrite8 REG_CSPREAD (if _cspread _profile then 1 else 0);
  do_ RegWrite8 REG_DITHER (if _dither _profile then 1 else 0);
  do_ (if negb (_outbits _profile =? 0)
       then RegWrite16 REG_OUTBITS (_outbits _profile) else ret tt);
  do touch <- TouchInit;
  if negb touch then ret ExitTouchInit else
  do_ set_dl_index (Index_new RAM_DL_SIZE 0);
  do_ dl_CLEAR_COLOR 0;
  do_ dl_CLEAR 1 1 1;
  do_ dl_DISPLAY;
  do_ RegWrite32 REG_DLSWAP DLSWAP_FRAME;
  do gpiox <- RegRead16 REG_GPIOX;
  do_ RegWrite16 REG_GPIOX (Z.lor gpiox 0x8000);
  do_ RegWrite8 REG_PCLK (_pclk _profile);
  do_ RegWrite16 REG_PWM_HZ 300;
  do_ RegWrite8 REG_PWM_DUTY 32;
  ret ExitSuccess.

(** [Begin] returns [true] for success and [false] for failure. *)
Definition Begin `{SteveVirtuals} (_profile : SteveDisplay) : St World bool :=
  do e <- Begin_exit _profile;
  ret (begin_result e).

(** ** What the chip sees on the bus *)

(** After chip-select is asserted, the first three bytes transferred form
    the 24-bit word of the transaction: a host command, or the direction
    bits and the address of a memory access.  The bytes after them are the
    data of the transaction, until chip-select is released. *)
Inductive bus_phase :=
| Deselected
| Header (bytes : list Z)
| Body.

Record bus_view := {
  phase : bus_phase;
  words : list Z
}.

Definition bus_step (v : bus_view) (e : event) : bus_view :=
  match e with
  | EvSelect false => {| phase := Deselected; words := words v |}
  | EvSelect true =>
      match phase v with
      | Deselected => {| phase := Header []; words := words v |}
      | _ => v
      end
  | EvTransfer b _ =>
      match phase v with
      | Header [b2; b1] =>
          {| phase := Body; words := words v ++ [b2 * 65536 + b1 * 256 + b] |}
      | Header l => {| phase := Header (l ++ [b]); words := words v |}
      | _ => v
      end
  | _ => v
  end.

Definition bus_view_of (t : list event) : bus_view :=
  fold_left bus_step t {| phase := Deselected; words := [] |}.

(** The 24-bit words of all transactions begun in a trace, oldest first. *)
Definition transactions (t : list event) : list Z := words (bus_view_of t).

(** A read transaction addressed to [address22] is one whose word is
    [HOSTCMD_READ | address22]. *)
Definition reads_address (address22 : Z) (t : list event) : Prop :=
  In (Z.lor HOSTCMD_READ address22) (transactions t).

(** The transaction words a computation run from the state [w] adds to
    those begun before it. *)
Definition added_transactions {A : Type} (m : St World A) (w : World) : list Z :=
  drop (length (transactions (trace (_hal w))))
       (transactions (trace (_hal (snd (m w))))).

(** A computation that, run from any state, only adds transactions to those
    begun before it, none of them a read of the chip identifier. *)
Definition quiet {A : Type} (m : St World A) : Prop :=
  forall w,
    transactions (trace (_hal (snd (m w))))
    = transactions (trace (_hal w)) ++ added_transactions m w /\
    ~ In (Z.lor HOSTCMD_READ REG_CHIP_ID) (added_transactions m w).

(** ** Example states *)

(** A transport on which nothing happened yet and whose chip answers
    [answer n] to transfer [n]. *)
Definition fresh_hal (answer : nat -> Z) : SteveHAL :=
  {| trace := []; selected := false; chip := answer; transfers := O |}.

Definition fresh_world (answer : nat -> Z) (cmd_index : Z) : World :=
  {| _hal := fresh_hal answer;
     _dl_index := Index_new RAM_DL_SIZE 0;
     _cmd_index := Index_new RAM_CMD_SIZE cmd_index;
     cmdindex_cells := ∅;
     bool_cells := ∅ |}.

(** Apply [Cmd] to each command word of a list, in order. *)
Fixpoint Cmd_all (commands : list Z) : St World unit :=
  match commands with
  | [] => ret tt
  | c :: commands' => do_ Cmd c; Cmd_all commands'
  end.

(** The value the loop of [SendString] compares [result] with. *)
Definition SendString_bound (abi : int_model) (maxlen : Z) : Z :=
  match abi with
  | Int16 => to_uint16 (maxlen - 1)
  | Int32 => maxlen - 1
  end.

(** A computation leaves the component [f] of the state as it was. *)
Definition preserves {S T A : Type} (f : S -> T) (m : St S A) : Prop :=
  forall s, f (snd (m s)) = f s.

(** The value the [j]-th poll of a register returns, counted from the state
    [w]: a poll makes five transfers (three for the transaction word, the
    dummy byte of a read, the data byte) and the last one carries the
    value. *)
Definition polled (w : World) (j : nat) : Z :=
  to_uint8 (chip (_hal w) (transfers (_hal w) + 5 * j + 4)%nat).

(** The number of bytes put on the bus between two states. *)
Definition emitted (w w' : World) : Z :=
  Z.of_nat (transfers (_hal w')) - Z.of_nat (transfers (_hal w)).

(** A state in which the write index is 4092 and the chip reports the fault
    value 0x0FFF as its read pointer (the two data bytes of the next
    register read are 0xFF and 0x0F). *)
Definition faulted_world : World :=
  fresh_world (fun n => match n with 4%nat => 0xFF | 5%nat => 0x0F | _ => 0 end) 4092.

(** A chip that answers 0x7C to every transfer, and one that answers 0x7C
    only to transfer [n]. *)
Definition ready_chip : nat -> Z := fun _ => 0x7C.

Definition chip_ready_at (n : nat) : nat -> Z :=
  fun i => if (i =? n)%nat then 0x7C else 0.

(** The result of a transport helper that counts what it sends agrees,
    modulo the size of the command buffer, with [base] plus the number of
    transfers it made. *)
Definition counts_from (base : Z) (m : St SteveHAL Z) : Prop :=
  forall h,
    fst (m h) mod RAM_CMD_SIZE
    = (base + (Z.of_nat (transfers (snd (m h))) - Z.of_nat (transfers h))) mod RAM_CMD_SIZE.

(** The word the chip assembles from the three bytes [BeginTransaction]
    sends for [data24]. *)
Definition header_word (data24 : Z) : Z :=
  to_uint8 (Z.shiftr data24 16) * 65536 + to_uint8 (Z.shiftr data24 8) * 256
  + to_uint8 data24.

Definition view (w : World) : bus_view := bus_view_of (trace (_hal w)).

(** A computation that begins one transaction, with word [word], and stays
    in it. *)
Definition starts_transaction {A : Type} (word : Z) (m : St World A) : Prop :=
  forall w, view (snd (m w)) = {| phase := Body; words := words (view w) ++ [word] |}.

(** A computation that, run inside the data phase of a transaction, begins
    no other one. *)
Definition in_body {A : Type} (m : St World A) : Prop :=
  forall w, phase (view w) = Body -> view (snd (m w)) = view w.

(** A computation that begins no transaction at all. *)
Definition no_transaction {A : Type} (m : St World A) : Prop :=
  forall w, words (view (snd (m w))) = words (view w).

(** A computation of the exit of [Begin] that is quiet and never leaves at
    the identity mismatch. *)
Definition quiet_exit (m : St World begin_exit) : Prop :=
  quiet m /\ forall w, fst (m w) <> ExitChipIdMismatch.

(** The profile of the CFA800480 example, which sets a pin drive table, the
    chip identifier, the clock multiplier and the frequency. *)
Definition CHIPID_BT817 : Z := 0x00011708.
Definition CLKSEL_X6 : Z := 0x46.

Definition cfa800480profile : SteveDisplay :=
  let p := SteveDisplay_new 800 8 4 8 178 480 8 4 8 1 2 1 0 in
  {| _clkext := _clkext p;
     _clksel := CLKSEL_X6;
     _chipid := CHIPID_BT817;
     _frequency := 72000000;
     _lcd10ma := _lcd10ma p;
     _cspread := _cspread p;
     _dither := _dither p;
     _outbits := _outbits p;
     _hsize := _hsize p;
     _hcycle := _hcycle p;
     _hoffset := _hoffset p;
     _hsync0 := _hsync0 p;
     _hsync1 := _hsync1 p;
     _vsize := _vsize p;
     _vcycle := _vcycle p;
     _voffset := _voffset p;
     _vsync0 := _vsync0 p;
     _vsync1 := _vsync1 p;
     _swizzle := _swizzle p;
     _pclkpol := _pclkpol p;
     _pclk := _pclk p;
     _pindrivetable :=
       Some [0; 4; 8; 12; 32; 36; 40; 46; 48; 52; 56; 60; 64; 68; 72; 76;
             81; 84; 88; 92; 96; 100; 0xFF] |}.

(** A chip that reports 0x7C in REG_ID at the first poll of [Begin], 0 in
    REG_CPURESET, and the identifier of a BT817. *)
Definition bt817_chip : nat -> Z :=
  fun n =>
    match n with
    | 13%nat => 0x7C
    | 23%nat => 0x08
    | 24%nat => 0x17
    | 25%nat => 0x01
    | _ => 0
    end.

(** ** Further parts of the transport *)

(** The value of a byte sequence read as a little-endian number. *)
Fixpoint little_endian (bytes : list Z) : Z :=
  match bytes with
  | [] => 0
  | b :: bytes' => b + 256 * little_endian bytes'
  end.

(** The bytes a transport computation puts on the bus when run in [h], and
    the bytes the chip answers to the next [n] transfers after [h]. *)
Definition bytes_sent {A : Type} (m : St SteveHAL A) (h : SteveHAL) : list Z :=
  drop (length (sent (trace h))) (sent (trace (snd (m h)))).

Definition answers (h : SteveHAL) (n : nat) : list Z :=
  map (fun i => to_uint8 (chip h (transfers h + i)%nat)) (seq 0 n).

(** [ReceiveBuffer]: one [Receive8] per round, stored at consecutive places
    of the buffer; the result pairs what the buffer then holds with the
    count returned. *)
Fixpoint ReceiveBuffer_loop (rounds : nat) : St SteveHAL (list Z) :=
  match rounds with
  | O => ret []
  | S rounds' =>
      do b <- Receive8;
      do buffer <- ReceiveBuffer_loop rounds';
      ret (b :: buffer)
  end.

Definition ReceiveBuffer (len : Z) : St SteveHAL (list Z * Z) :=
  do buffer <- ReceiveBuffer_loop (Z.to_nat (to_uint32 len));
  ret (buffer, to_uint32 len).

(** [RegReadBuffer] and [RegWriteBuffer]: the source buffer is the list of
    its [length] bytes. *)
Definition RegReadBuffer (address22 length : Z) : St World (list Z * Z) :=
  do_ BeginMemoryTransaction address22 false;
  do r <- hal (ReceiveBuffer length);
  ret (fst r, to_uint32 (to_uint32 address22 + snd r)).

Definition RegWriteBuffer (address22 : Z) (source : list Z) : St World Z :=
  do_ BeginMemoryTransaction address22 true;
  do n <- hal (SendBuffer source);
  ret (to_uint32 (to_uint32 address22 + n)).

(** The bytes a driver operation started in [w] puts on the bus. *)
Definition wire {A : Type} (m : St World A) (w : World) : list Z :=
  drop (length (sent (trace (_hal w)))) (sent (trace (_hal (snd (m w))))).

(** The bytes of a 24-bit transaction word, most significant first. *)
Definition big_endian24 (word : Z) : list Z :=
  [word / 65536; (word / 256) mod 256; word mod 256].

(** The waits requested from the transport in a trace, in order. *)
Definition delays (t : list event) : list Z :=
  flat_map (fun e => match e with EvDelay ms => [ms] | _ => [] end) t.

(** More commands of the table, with their opcodes. *)
Definition ENC_CMD_TEXT : Z := 0xFFFFFF0C.
Definition ENC_CMD_BUTTON : Z := 0xFFFFFF0D.
Definition ENC_CMD_KEYS : Z := 0xFFFFFF0E.

Definition cmd_BUTTON (abi : int_model) (x16 y16 w16 h16 font5 options : Z)
    (message : option (list Z)) (len : Z) :=
  CMD abi ENC_CMD_BUTTON
    [V2 x16; V2 y16; V2 w16; V2 h16; V2 font5; V2 options; SS message len].

(** The parameter list of [cmd_KEYS] does not mention [font5]. *)
Definition cmd_KEYS (abi : int_model) (x16 y16 w16 h16 font5 options : Z)
    (message : option (list Z)) (len : Z) :=
  CMD abi ENC_CMD_KEYS
    [V2 x16; V2 y16; V2 w16; V2 h16; V2 options; SS message len].

Definition cmd_TEXT (abi : int_model) (x16 y16 font5 options : Z)
    (message : option (list Z)) (len : Z) :=
  CMD abi ENC_CMD_TEXT [V2 x16; V2 y16; V2 font5; V2 options; SS message len].

(** The number of two-byte parameters in a parameter list. *)
Fixpoint count_V2 (ps : list cmd_param) : nat :=
  match ps with
  | [] => O
  | V2 _ :: ps' => S (count_V2 ps')
  | _ :: ps' => count_V2 ps'
  end.

(** [RGB]: [(uint32_t)r << 16 | (uint32_t)g << 8 | (uint32_t)b], on three
    [uint8_t] arguments. *)
Definition RGB (r g b : Z) : Z :=
  to_uint32
    (Z.lor (Z.lor (to_uint32 (Z.shiftl (to_uint32 (to_uint8 r)) 16))
                  (to_uint32 (Z.shiftl (to_uint32 (to_uint8 g)) 8)))
           (to_uint32 (to_uint8 b))).

Definition ENC_CMD_COLOR_RGB : Z := 0x04000000.
Definition ENC_CMD_COLOR : Z := 0x04000000.

Definition ENC_COLOR_RGB (red8 green8 blue8 : Z) : Z :=
  Z.lor (Z.lor (Z.lor ENC_CMD_COLOR_RGB (ENC_field (to_uint8 red8) 23 16))
               (ENC_field (to_uint8 green8) 15 8))
        (ENC_field (to_uint8 blue8) 7 0).

Definition ENC_COLOR (rgb24 : Z) : Z :=
  Z.lor ENC_CMD_COLOR (ENC_field (to_uint32 rgb24) 23 0).

Definition cmd_COLOR_RGB (red8 green8 blue8 : Z) : St World Index :=
  Cmd (ENC_COLOR_RGB red8 green8 blue8).

Definition cmd_COLOR (rgb24 : Z) : St World Index := Cmd (ENC_COLOR rgb24).

(** The two overloads of [CmdColor]. *)
Definition CmdColor (red green blue : Z) : St World Index :=
  cmd_COLOR_RGB red green blue.

Definition CmdColor_rgb24 (rgb24 : Z) : St World Index := cmd_COLOR rgb24.

(** [CmdWaitComplete]: the loop [while (CmdIsBusy(pError))] polls until
    the co-processor is not busy.  [fuel] bounds the number of polls; the
    result is [None] when they are used up with the co-processor still
    busy. *)
Fixpoint CmdWaitComplete (fuel : nat) (pError : option nat)
  : St World (option Index) :=
  match fuel with
  | O => ret None
  | S fuel' =>
      do busy <- CmdIsBusy pError;
      if (busy : bool) then CmdWaitComplete fuel' pError
      else do w <- get; ret (Some (_cmd_index w))
  end.


(** The 16-bit value the [j]-th read of a 16-bit register returns, counted
    from the state [w]: such a read makes six transfers, and the last two
    carry the value, low byte first. *)
Definition polled16 (w : World) (j : nat) : Z :=
  little_endian
    [to_uint8 (chip (_hal w) (transfers (_hal w) + 6 * j + 4)%nat);
     to_uint8 (chip (_hal w) (transfers (_hal w) + 6 * j + 5)%nat)].

(** The co-processor is seen busy: the read pointer is neither the fault
    value nor the write index. *)
Definition seen_busy (w : World) (j : nat) : Prop :=
  polled16 w j <> READ_INDEX_ERROR /\ polled16 w j <> index (_cmd_index w).

(** * Properties *)

(** ** Fixed-width integers *)

Lemma to_uint8_range x : is_uint8 (to_uint8 x).
Proof. unfold is_uint8, to_uint8. apply Z.mod_pos_bound. lia. Qed.


Lemma to_uint8_id x : is_uint8 x -> to_uint8 x = x.
Proof. unfold is_uint8, to_uint8. intros. apply Z.mod_small. lia. Qed.

Lemma to_uint16_id x : is_uint16 x -> to_uint16 x = x.
Proof. unfold is_uint16, to_uint16. intros. apply Z.mod_small. lia. Qed.

Lemma to_uint32_id x : is_uint32 x -> to_uint32 x = x.
Proof. unfold is_uint32, to_uint32. intros. apply Z.mod_small. lia. Qed.

Lemma to_int16_id x : is_int16 x -> to_int16 x = x.
Proof.
  unfold is_int16, to_int16. intros.
  rewrite Z.mod_small by lia. lia.
Qed.

(** Reducing modulo 2^n first does not change the residue modulo 2^k for
    k <= n: index arithmetic does not depend on the width of the
    intermediate type. *)
Lemma mod_pow2_mod_pow2 x k n :
  0 <= k <= n -> (x mod 2 ^ n) mod 2 ^ k = x mod 2 ^ k.
Proof.
  intros Hk. apply Z.mod_mod_divide.
  exists (2 ^ (n - k)). rewrite <- Z.pow_add_r by lia. f_equal. lia.
Qed.

Lemma to_uint16_mod x k : 0 <= k <= 16 -> to_uint16 x mod 2 ^ k = x mod 2 ^ k.
Proof. intros. unfold to_uint16. by apply mod_pow2_mod_pow2. Qed.

Lemma to_int16_mod x k : 0 <= k <= 16 -> to_int16 x mod 2 ^ k = x mod 2 ^ k.
Proof.
  intros Hk. unfold to_int16.
  rewrite Zminus_mod, (mod_pow2_mod_pow2 _ k 16) by lia.
  rewrite <- Zminus_mod.
  replace (x + 2 ^ 15 - 2 ^ 15) with x by lia. reflexivity.
Qed.

(** ** The wrapping index *)

Section IndexFacts.

(** The modulus is a power of two that fits the [uint16_t] template
    argument. *)
Variable k : Z.
Hypothesis k_range : 0 <= k <= 15.

Let M : Z := 2 ^ k.

Lemma Wrap_mod i : _index (Wrap M i) = _index i mod M.
Proof.
  unfold Wrap, M. simpl.
  replace (2 ^ k - 1) with (Z.ones k) by (rewrite Z.ones_equiv; lia).
  apply Z.land_ones. lia.
Qed.

Lemma Index_new_mod seed : _index (Index_new M seed) = seed mod M.
Proof.
  unfold Index_new. rewrite Wrap_mod. simpl.
  apply to_uint16_mod. lia.
Qed.

Lemma Index_add_assign_mod i v :
  _index (Index_add_assign M i v) = (_index i + v) mod M.
Proof.
  unfold Index_add_assign. rewrite Wrap_mod. simpl.
  unfold M. rewrite to_uint16_mod by lia.
  rewrite Zplus_mod, to_int16_mod by lia.
  rewrite <- Zplus_mod. reflexivity.
Qed.

Lemma Index_sub_assign_mod i v :
  _index (Index_sub_assign M i v) = (_index i - v) mod M.
Proof.
  unfold Index_sub_assign. rewrite Wrap_mod. simpl.
  unfold M. rewrite to_uint16_mod by lia.
  rewrite Zminus_mod, to_int16_mod by lia.
  rewrite <- Zminus_mod. reflexivity.
Qed.

Lemma Index_add_mod i v : _index (Index_add M i v) = (_index i + v) mod M.
Proof.
  unfold Index_add. rewrite Index_add_assign_mod, Index_new_mod.
  apply Zplus_mod_idemp_l.
Qed.

Lemma Index_sub_mod i v : _index (Index_sub M i v) = (_index i - v) mod M.
Proof.
  unfold Index_sub. rewrite Index_sub_assign_mod, Index_new_mod.
  apply Zminus_mod_idemp_l.
Qed.

(** Running the operations from any index congruent to [a] ends congruent
    to the unbounded sum started at [a]. *)
Lemma fold_apply_op_mod ops : forall i a,
  _index i = a mod M ->
  _index (fold_left (apply_op M) ops i)
  = signed_sum a ops mod M.
Proof.
  unfold signed_sum.
  induction ops as [|o ops IH]; intros i a Hi; cbn [fold_left].
  - exact Hi.
  - apply IH. destruct o; cbn [apply_op].
    + rewrite Index_add_assign_mod, Hi. apply Zplus_mod_idemp_l.
    + rewrite Index_sub_assign_mod, Hi. apply Zminus_mod_idemp_l.
Qed.

(** C2: for a power-of-two modulus, any seed and any finite sequence of
    in-place additions and subtractions, [index()] is in [0, M) and is the
    mathematical sum of the seed and the signed deltas, reduced modulo M. *)
Theorem Index_wraps_sum (seed : Z) (ops : list index_op) :
  0 <= index (run_ops (2 ^ k) seed ops) < 2 ^ k /\
  index (run_ops (2 ^ k) seed ops) = signed_sum seed ops mod 2 ^ k.
Proof.
  assert (H : index (run_ops M seed ops) = signed_sum seed ops mod M).
  { unfold run_ops, index. apply fold_apply_op_mod. apply Index_new_mod. }
  fold M. split; [|exact H].
  rewrite H. apply Z.mod_pos_bound. unfold M. lia.
Qed.

End IndexFacts.

Lemma Index_wraps_sum_witness :
  0 <= index (run_ops (2 ^ 12) 4090 [OpAdd 4; OpAdd 4; OpSub 12; OpAdd 32767; OpSub (-32768)]) < 2 ^ 12 /\
  index (run_ops (2 ^ 12) 4090 [OpAdd 4; OpAdd 4; OpSub 12; OpAdd 32767; OpSub (-32768)])
  = signed_sum 4090 [OpAdd 4; OpAdd 4; OpSub 12; OpAdd 32767; OpSub (-32768)] mod 2 ^ 12.
Proof. apply (Index_wraps_sum 12); lia. Defined.

(** The two instances of the driver use the moduli 2^13 and 2^12. *)
Lemma RAM_DL_SIZE_pow2 : RAM_DL_SIZE = 2 ^ 13.
Proof. reflexivity. Qed.

Lemma RAM_CMD_SIZE_pow2 : RAM_CMD_SIZE = 2 ^ 12.
Proof. reflexivity. Qed.

(** ** The panel profile *)

(** C5 as stated fails when a sum of the [uint16_t] arguments does not fit
    the [uint16_t] member it is stored in: a width of 65535 with a front
    porch of 1 gives a cycle of 0, not 65536. *)
Lemma SteveDisplay_hcycle_overflow :
  is_uint16 65535 /\ is_uint16 1 /\ is_uint16 0 /\
  _hcycle (SteveDisplay_new 65535 1 0 0 0 128 4 1 3 1 7 1 0) = 0 /\
  _hcycle (SteveDisplay_new 65535 1 0 0 0 128 4 1 3 1 7 1 0)
  <> 1 + 0 + 0 + 65535 + 0.
Proof.
  unfold is_uint16. split; [lia|]. split; [lia|]. split; [lia|].
  split; [reflexivity | discriminate].
Qed.

(** C5, amended: for [uint16_t] arguments, on each axis the cycle is
    frontporch + syncwidth + backporch + active + padding, the offset is
    frontporch + syncwidth + backporch and sync1 is frontporch + syncwidth,
    each reduced modulo 2^16, so they are the plain sums whenever the cycle
    sum is below 65536; sync0 is the front porch; the 480x128 profile gets
    hcycle 1042, hoffset 41 and hsync1 35. *)
Theorem SteveDisplay_timing
    (width hfrontporch hsyncwidth hbackporch hpadding : Z)
    (height vfrontporch vsyncheight vbackporch vpadding : Z)
    (pclk pclkpol swizzle : Z) :
  is_uint16 width -> is_uint16 hfrontporch -> is_uint16 hsyncwidth ->
  is_uint16 hbackporch -> is_uint16 hpadding ->
  is_uint16 height -> is_uint16 vfrontporch -> is_uint16 vsyncheight ->
  is_uint16 vbackporch -> is_uint16 vpadding ->
  let p := SteveDisplay_new width hfrontporch hsyncwidth hbackporch hpadding
             height vfrontporch vsyncheight vbackporch vpadding
             pclk pclkpol swizzle in
  let hsum := hfrontporch + hsyncwidth + hbackporch + width + hpadding in
  let vsum := vfrontporch + vsyncheight + vbackporch + height + vpadding in
  (_hcycle p = hsum mod 2 ^ 16 /\
   _hoffset p = (hfrontporch + hsyncwidth + hbackporch) mod 2 ^ 16 /\
   _hsync0 p = hfrontporch /\
   _hsync1 p = (hfrontporch + hsyncwidth) mod 2 ^ 16) /\
  (_vcycle p = vsum mod 2 ^ 16 /\
   _voffset p = (vfrontporch + vsyncheight + vbackporch) mod 2 ^ 16 /\
   _vsync0 p = vfrontporch /\
   _vsync1 p = (vfrontporch + vsyncheight) mod 2 ^ 16) /\
  (hsum < 2 ^ 16 ->
   _hcycle p = hsum /\
   _hoffset p = hfrontporch + hsyncwidth + hbackporch /\
   _hsync1 p = hfrontporch + hsyncwidth) /\
  (vsum < 2 ^ 16 ->
   _vcycle p = vsum /\
   _voffset p = vfrontporch + vsyncheight + vbackporch /\
   _vsync1 p = vfrontporch + vsyncheight) /\
  (_hcycle cfa480128profile = 1042 /\
   _hoffset cfa480128profile = 41 /\
   _hsync1 cfa480128profile = 35).
Proof.
  unfold is_uint16. intros Hw Hhf Hhs Hhb Hhp Hh Hvf Hvs Hvb Hvp.
  cbv zeta. cbn [SteveDisplay_new _hcycle _hoffset _hsync0 _hsync1
    _vcycle _voffset _vsync0 _vsync1]. unfold to_uint16.
  repeat split; try reflexivity; intros;
    apply Z.mod_small; lia.
Qed.

Lemma SteveDisplay_timing_witness :
  let p := cfa480128profile in
  (_hcycle p = (24 + 11 + 6 + 480 + 521) mod 2 ^ 16 /\
   _hoffset p = (24 + 11 + 6) mod 2 ^ 16 /\
   _hsync0 p = 24 /\
   _hsync1 p = (24 + 11) mod 2 ^ 16) /\
  (_vcycle p = (4 + 1 + 3 + 128 + 1) mod 2 ^ 16 /\
   _voffset p = (4 + 1 + 3) mod 2 ^ 16 /\
   _vsync0 p = 4 /\
   _vsync1 p = (4 + 1) mod 2 ^ 16) /\
  (24 + 11 + 6 + 480 + 521 < 2 ^ 16 ->
   _hcycle p = 24 + 11 + 6 + 480 + 521 /\
   _hoffset p = 24 + 11 + 6 /\
   _hsync1 p = 24 + 11) /\
  (4 + 1 + 3 + 128 + 1 < 2 ^ 16 ->
   _vcycle p = 4 + 1 + 3 + 128 + 1 /\
   _voffset p = 4 + 1 + 3 /\
   _vsync1 p = 4 + 1) /\
  (_hcycle cfa480128profile = 1042 /\
   _hoffset cfa480128profile = 41 /\
   _hsync1 cfa480128profile = 35).
Proof.
  apply (SteveDisplay_timing 480 24 11 6 521 128 4 1 3 1 7 1 0);
    unfold is_uint16; lia.
Defined.

(** ** State passing *)

Lemma bind_run {S A B : Type} (m : St S A) (k : A -> St S B) (s : S) :
  bind m k s = k (fst (m s)) (snd (m s)).
Proof. unfold bind. destruct (m s). reflexivity. Qed.

(** ** The transport helpers *)

Lemma sent_app t1 t2 : sent (t1 ++ t2) = sent t1 ++ sent t2.
Proof. unfold sent. apply flat_map_app. Qed.

Lemma Send8_sent value h :
  sent (trace (snd (Send8 value h))) = sent (trace h) ++ [to_uint8 value].
Proof. cbn. rewrite sent_app. reflexivity. Qed.

Lemma Send8_transfers value h :
  transfers (snd (Send8 value h)) = S (transfers h).
Proof. reflexivity. Qed.

Lemma SendString_continue_bound abi result maxlen :
  SendString_continue abi result maxlen = (result <? SendString_bound abi maxlen).
Proof. destruct abi; reflexivity. Qed.

(** The loop of [SendString] sends the characters of the string up to its
    end or up to the bound, whichever comes first. *)
Lemma SendString_loop_sent abi maxlen s : forall result h,
  0 <= result -> SendString_bound abi maxlen <= 65535 ->
  let n := Nat.min (strlen s) (Z.to_nat (SendString_bound abi maxlen - result)) in
  fst (SendString_loop abi s maxlen result h) = result + Z.of_nat n /\
  sent (trace (snd (SendString_loop abi s maxlen result h)))
  = sent (trace h) ++ map to_uint8 (take n s) /\
  transfers (snd (SendString_loop abi s maxlen result h)) = (transfers h + n)%nat.
Proof.
  induction s as [|c s IH]; intros result h Hres Hbound; cbn [SendString_loop strlen].
  - rewrite SendString_continue_bound.
    destruct (result <? _); cbn; rewrite app_nil_r; repeat split; lia.
  - rewrite SendString_continue_bound.
    destruct (Z.ltb_spec result (SendString_bound abi maxlen)) as [Hlt|Hge].
    + destruct (Z.eqb_spec c 0) as [->|Hc].
      * cbn. rewrite app_nil_r. repeat split; lia.
      * assert (Hr : to_uint16 (result + 1) = result + 1)
          by (apply to_uint16_id; unfold is_uint16; lia).
        rewrite bind_run, Hr.
        destruct (IH (result + 1) (snd (Send8 c h)) ltac:(lia) Hbound)
          as (IH1 & IH2 & IH3).
        replace (Z.to_nat (SendString_bound abi maxlen - result))
          with (S (Z.to_nat (SendString_bound abi maxlen - (result + 1)))) by lia.
        cbn [Nat.min take map].
        rewrite IH1, IH2, IH3, Send8_sent, Send8_transfers, <- app_assoc.
        repeat split; try reflexivity; lia.
    + replace (Z.to_nat (SendString_bound abi maxlen - result)) with O by lia.
      rewrite Nat.min_0_r. cbn. rewrite app_nil_r. repeat split; lia.
Qed.

(** The three rounds given to the loop of [SendAlignmentBytes] are
    enough: the count it returns is a multiple of 4. *)
Lemma SendAlignmentBytes_loop_aligned fuel : forall result h,
  0 <= result < 2 ^ 32 ->
  (4 - result mod 4) mod 4 <= Z.of_nat fuel ->
  fst (SendAlignmentBytes_loop fuel result h) mod 4 = 0.
Proof.
  induction fuel as [|fuel IH]; intros result h Hres Hfuel;
    cbn [SendAlignmentBytes_loop];
    destruct (Z.eqb_spec (result mod 4) 0) as [Hz|Hnz];
    try (unfold ret; cbn [fst]; exact Hz).
  - exfalso. pose proof (Z.mod_pos_bound result 4 ltac:(lia)) as Hb.
    rewrite Z.mod_small in Hfuel by lia. lia.
  - rewrite bind_run. apply IH.
    + unfold to_uint32. apply Z.mod_pos_bound. lia.
    + assert (Hnext : to_uint32 (result + 1) mod 4 = (result mod 4 + 1) mod 4).
      { unfold to_uint32.
        rewrite Z.mod_mod_divide by (exists (2 ^ 30); reflexivity).
        rewrite Zplus_mod. reflexivity. }
      rewrite Hnext.
      pose proof (Z.mod_pos_bound result 4 ltac:(lia)) as Hb.
      rewrite Z.mod_small in Hfuel by lia.
      assert (Hcases : result mod 4 = 1 \/ result mod 4 = 2 \/ result mod 4 = 3) by lia.
      destruct Hcases as [Hc | [Hc | Hc]]; rewrite Hc in *.
      * change ((4 - (1 + 1) mod 4) mod 4) with 2. lia.
      * change ((4 - (2 + 1) mod 4) mod 4) with 1. lia.
      * change ((4 - (3 + 1) mod 4) mod 4) with 0. lia.
Qed.

Lemma SendAlignmentBytes_aligned num h :
  fst (SendAlignmentBytes num h) mod 4 = 0.
Proof.
  unfold SendAlignmentBytes. apply SendAlignmentBytes_loop_aligned.
  - unfold to_uint32. apply Z.mod_pos_bound. lia.
  - pose proof (Z.mod_pos_bound (to_uint32 num) 4 ltac:(lia)) as Hb.
    pose proof (Z.mod_pos_bound (4 - to_uint32 num mod 4) 4 ltac:(lia)).
    assert (Hcases : to_uint32 num mod 4 = 0 \/ to_uint32 num mod 4 = 1 \/
                     to_uint32 num mod 4 = 2 \/ to_uint32 num mod 4 = 3) by lia.
    destruct Hcases as [Hc | [Hc | [Hc | Hc]]]; rewrite Hc.
    + change ((4 - 0) mod 4) with 0. lia.
    + change ((4 - 1) mod 4) with 3. lia.
    + change ((4 - 2) mod 4) with 2. lia.
    + change ((4 - 3) mod 4) with 1. lia.
Qed.

(** C6: for a non-null string and a maximum length N with 0 < N,
    [SendString] transmits exactly min(L, N-1) + 1 bytes: the first
    min(L, N-1) characters of the string, then a byte of value zero.  It
    returns that count. *)
Theorem SendString_truncates_and_terminates
    (abi : int_model) (s : list Z) (maxlen : Z) (h : SteveHAL) :
  0 < maxlen < 2 ^ 16 ->
  let n := Nat.min (strlen s) (Z.to_nat (maxlen - 1)) in
  sent (trace (snd (SendString abi (Some s) maxlen h)))
  = sent (trace h) ++ map to_uint8 (take n s) ++ [0] /\
  transfers (snd (SendString abi (Some s) maxlen h)) = (transfers h + (n + 1))%nat /\
  length (map to_uint8 (take n s) ++ [0]) = (n + 1)%nat /\
  fst (SendString abi (Some s) maxlen h) = Z.of_nat n + 1.
Proof.
  intros Hmax n.
  assert (Hb : SendString_bound abi (to_uint16 maxlen) = maxlen - 1).
  { rewrite (to_uint16_id maxlen) by (unfold is_uint16; lia).
    destruct abi; cbn [SendString_bound]; [|reflexivity].
    apply to_uint16_id. unfold is_uint16. lia. }
  destruct (SendString_loop_sent abi (to_uint16 maxlen) s 0 h) as (H1 & H2 & H3);
    [lia | lia |].
  rewrite Hb, Z.sub_0_r in H1, H2, H3. fold n in H1, H2, H3.
  assert (Hn : (n <= strlen s)%nat /\ Z.of_nat n <= maxlen - 1) by lia.
  unfold SendString. rewrite !bind_run. unfold ret. cbn [fst snd].
  rewrite Send8_sent, Send8_transfers, H1, H2, H3.
  rewrite <- app_assoc.
  repeat split.
  - lia.
  - rewrite length_app, length_map, length_take. cbn [length].
    assert (strlen s <= length s)%nat.
    { clear. induction s as [|c s IH]; cbn; [lia|]. destruct (c =? 0); lia. }
    lia.
  - apply to_uint16_id. unfold is_uint16. lia.
Qed.

Lemma SendString_truncates_and_terminates_witness :
  let h := fresh_hal (fun _ => 0) in
  let n := Nat.min (strlen [72; 105; 33]) (Z.to_nat (3 - 1)) in
  sent (trace (snd (SendString Int32 (Some [72; 105; 33]) 3 h)))
  = sent (trace h) ++ map to_uint8 (take n [72; 105; 33]) ++ [0] /\
  transfers (snd (SendString Int32 (Some [72; 105; 33]) 3 h))
  = (transfers h + (n + 1))%nat /\
  length (map to_uint8 (take n [72; 105; 33]) ++ [0]) = (n + 1)%nat /\
  fst (SendString Int32 (Some [72; 105; 33]) 3 h) = Z.of_nat n + 1.
Proof.
  apply (SendString_truncates_and_terminates Int32 [72; 105; 33] 3
           (fresh_hal (fun _ => 0))).
  lia.
Defined.

(** C9: with a NULL message [SendString] transmits exactly one byte, of
    value zero, and returns 1, for every maximum length. *)
Theorem SendString_NULL_is_empty (abi : int_model) (maxlen : Z) (h : SteveHAL) :
  sent (trace (snd (SendString abi None maxlen h))) = sent (trace h) ++ [0] /\
  transfers (snd (SendString abi None maxlen h)) = S (transfers h) /\
  fst (SendString abi None maxlen h) = 1.
Proof.
  unfold SendString. cbn [SendString_loop].
  destruct (SendString_continue abi 0 (to_uint16 maxlen));
    rewrite !bind_run; unfold ret; cbn [fst snd];
    rewrite Send8_sent, Send8_transfers; repeat split; reflexivity.
Qed.

(** With a maximum length of 0 and a 16-bit [int], the bound wraps to
    65535: up to 65535 characters and the terminating zero are sent. *)
Lemma SendString_maxlen0_int16 (s : list Z) (h : SteveHAL) :
  let n := Nat.min (strlen s) (Z.to_nat 65535) in
  sent (trace (snd (SendString Int16 (Some s) 0 h)))
  = sent (trace h) ++ map to_uint8 (take n s) ++ [0] /\
  transfers (snd (SendString Int16 (Some s) 0 h)) = (transfers h + (n + 1))%nat.
Proof.
  intros n.
  assert (Hb : SendString_bound Int16 (to_uint16 0) = 65535) by reflexivity.
  destruct (SendString_loop_sent Int16 (to_uint16 0) s 0 h) as (H1 & H2 & H3);
    [lia | lia |].
  rewrite Hb, Z.sub_0_r in H1, H2, H3.
  fold n in H1, H2, H3.
  unfold SendString. rewrite !bind_run. unfold ret. cbn [fst snd].
  rewrite Send8_sent, Send8_transfers, H2, H3.
  rewrite <- app_assoc. split; [reflexivity | lia].
Qed.

(** With a maximum length of 0 and an [int] wider than 16 bits, the bound
    is -1 and no character is sent: only the zero byte goes out. *)
Lemma SendString_maxlen0_int32 (s : list Z) (h : SteveHAL) :
  sent (trace (snd (SendString Int32 (Some s) 0 h))) = sent (trace h) ++ [0] /\
  transfers (snd (SendString Int32 (Some s) 0 h)) = S (transfers h) /\
  fst (SendString Int32 (Some s) 0 h) = 1.
Proof.
  unfold SendString.
  assert (Hl : SendString_loop Int32 s (to_uint16 0) 0 h = (0, h))
    by (destruct s; reflexivity).
  rewrite !bind_run, Hl. unfold ret. cbn [fst snd].
  rewrite Send8_sent, Send8_transfers. repeat split; reflexivity.
Qed.

(** C10 at a failing input: where [int] has 32 bits, sending the text
    "StEVE" with the default maximum length 0 puts the single byte 0 on the
    bus and returns 1, while on a 16-bit [int] the five characters and the
    zero byte go out. *)
Theorem SendString_maxlen0_sends_nothing_on_int32 :
  let h := fresh_hal (fun _ => 0) in
  let message := Some [83; 116; 69; 86; 69] in
  sent (trace (snd (SendString Int32 message 0 h))) = [0] /\
  fst (SendString Int32 message 0 h) = 1 /\
  sent (trace (snd (SendString Int16 message 0 h))) = [83; 116; 69; 86; 69; 0].
Proof. cbv zeta. split; [|split]; vm_compute; reflexivity. Qed.

(** ** Framing: what an operation leaves alone *)

Lemma preserves_ret {S T A : Type} (f : S -> T) (a : A) : preserves f (ret a).
Proof. intros s. reflexivity. Qed.

Lemma preserves_get {S T : Type} (f : S -> T) : preserves f get.
Proof. intros s. reflexivity. Qed.

Lemma preserves_bind {S T A B : Type} (f : S -> T) (m : St S A) (k : A -> St S B) :
  preserves f m -> (forall a, preserves f (k a)) -> preserves f (bind m k).
Proof. intros Hm Hk s. rewrite bind_run, Hk, Hm. reflexivity. Qed.

Lemma preserves_hal {T A : Type} (f : World -> T) (m : St SteveHAL A) :
  (forall w h, f {| _hal := h; _dl_index := _dl_index w; _cmd_index := _cmd_index w;
                    cmdindex_cells := cmdindex_cells w; bool_cells := bool_cells w |}
               = f w) ->
  preserves f (hal m).
Proof. intros Hf w. unfold hal. destruct (m (_hal w)) as [a h]. apply Hf. Qed.

Ltac frame_step :=
  match goal with
  | |- preserves _ (ret _) => apply preserves_ret
  | |- preserves _ get => apply preserves_get
  | |- preserves _ (bind _ _) => apply preserves_bind; [|intros]
  | |- preserves _ (hal _) => apply preserves_hal; reflexivity
  | |- preserves _ (if ?b then _ else _) => destruct b
  | |- preserves _ (match ?o with Some _ => _ | None => _ end) => destruct o
  | |- preserves _ (modify _) => intros ?; reflexivity
  end.

Ltac frame := repeat frame_step.

Ltac frame_ops :=
  unfold RegRead8, RegRead16, RegRead32, RegWrite8, RegWrite16, RegWrite32,
    HostCommand, BeginMemoryTransaction, BeginTransaction, EndTransaction,
    set_cmd_index, set_dl_index, store_bool, store_cmdindex;
  frame.

(** Register reads leave the indices and the caller's objects alone. *)
Lemma RegRead16_cmd_index a : preserves _cmd_index (RegRead16 a).
Proof. frame_ops. Qed.

Lemma RegRead16_bool_cells a : preserves bool_cells (RegRead16 a).
Proof. frame_ops. Qed.

Lemma RegRead16_cmdindex_cells a : preserves cmdindex_cells (RegRead16 a).
Proof. frame_ops. Qed.

(** ** The co-processor queue *)

Lemma busy_cases (ri wi : Z) :
  (ri = READ_INDEX_ERROR ->
   negb (ri =? READ_INDEX_ERROR) && negb (ri =? wi) = false) /\
  (ri = wi -> negb (ri =? READ_INDEX_ERROR) && negb (ri =? wi) = false) /\
  (ri <> wi -> ri <> READ_INDEX_ERROR ->
   negb (ri =? READ_INDEX_ERROR) && negb (ri =? wi) = true).
Proof.
  split; [|split].
  - intros ->. reflexivity.
  - intros <-. rewrite Z.eqb_refl. apply andb_false_r.
  - intros H1 H2. apply Z.eqb_neq in H1, H2. rewrite H1, H2. reflexivity.
Qed.

(** C4: [CmdIsBusy] sets the error flag, when one is passed, exactly when
    the value read from the read pointer is the sentinel 0x0FFF; it
    returns false for the sentinel whatever the write index, false when the
    value read equals the write index, and true when it is neither. *)
Theorem CmdIsBusy_reports_busy_and_fault (pError : option nat) (w : World) :
  let ri := fst (RegRead16 REG_CMD_READ w) in
  let busy := fst (CmdIsBusy pError w) in
  let w' := snd (CmdIsBusy pError w) in
  (forall p, pError = Some p ->
     exists error, bool_cells w' !! p = Some error /\
                   (error = true <-> ri = READ_INDEX_ERROR)) /\
  (pError = None -> bool_cells w' = bool_cells w) /\
  (ri = READ_INDEX_ERROR -> busy = false) /\
  (ri = index (_cmd_index w) -> busy = false) /\
  (ri <> index (_cmd_index w) -> ri <> READ_INDEX_ERROR -> busy = true).
Proof.
  cbv zeta. unfold CmdIsBusy. rewrite !bind_run.
  unfold get, ret, store_bool, modify.
  pose proof (RegRead16_cmd_index REG_CMD_READ w) as Hidx.
  pose proof (RegRead16_bool_cells REG_CMD_READ w) as Hcells.
  revert Hidx Hcells.
  generalize (snd (RegRead16 REG_CMD_READ w)).
  generalize (fst (RegRead16 REG_CMD_READ w)).
  intros ri w1 Hidx Hcells.
  destruct pError as [p|]; cbn [fst snd _cmd_index bool_cells];
    rewrite Hidx; (split; [|split; [|apply busy_cases]]).
  - intros p' Hp. injection Hp as <-. exists (ri =? READ_INDEX_ERROR).
    split; [apply lookup_insert_eq | apply Z.eqb_eq].
  - discriminate.
  - discriminate.
  - intros _. exact Hcells.
Qed.

Lemma Cmd_cmd_index command w :
  _cmd_index (snd (Cmd command w)) = Index_add_assign RAM_CMD_SIZE (_cmd_index w) 4.
Proof.
  unfold Cmd. rewrite !bind_run. unfold get, ret, set_cmd_index, modify.
  reflexivity.
Qed.

Lemma Cmd_all_cmd_index commands : forall w,
  _index (_cmd_index (snd (Cmd_all commands w))) mod RAM_CMD_SIZE
  = (_index (_cmd_index w) + 4 * Z.of_nat (length commands)) mod RAM_CMD_SIZE.
Proof.
  induction commands as [|c commands IH]; intros w; cbn [Cmd_all length].
  - unfold ret. cbn [snd]. f_equal. lia.
  - rewrite bind_run, IH, Cmd_cmd_index.
    change RAM_CMD_SIZE with (2 ^ 12).
    rewrite Index_add_assign_mod by lia.
    rewrite Zplus_mod_idemp_l. f_equal. lia.
Qed.

Lemma CmdGetFreeCmdSpace_run w :
  fst (CmdGetFreeCmdSpace w)
  = to_uint16 ((RAM_CMD_SIZE - 4)
               - (_index (_cmd_index w) - fst (RegRead16 REG_CMD_READ w)) mod RAM_CMD_SIZE).
Proof.
  unfold CmdGetFreeCmdSpace. rewrite !bind_run. unfold get, ret. cbn [fst snd].
  rewrite RegRead16_cmd_index. unfold index.
  change RAM_CMD_SIZE with (2 ^ 12).
  rewrite Index_sub_mod by lia.
  set (used := (_ - _) mod 2 ^ 12).
  assert (0 <= used < 2 ^ 12) by (apply Z.mod_pos_bound; lia).
  rewrite (to_uint16_id used) by (unfold is_uint16; lia).
  unfold to_uint16, to_uint32.
  apply (mod_pow2_mod_pow2 _ 16 32). lia.
Qed.

(** C1 as stated fails when the used space exceeds RAM_CMD_SIZE - 4: with
    the write index at 4092 and the read pointer reporting 0x0FFF, the used
    space is 4093 and the [uint16_t] result is 65535, not -1. *)
Lemma CmdGetFreeCmdSpace_underflow :
  index (_cmd_index faulted_world) = 4092 /\
  fst (RegRead16 REG_CMD_READ faulted_world) = 4095 /\
  fst (CmdGetFreeCmdSpace faulted_world) = 65535 /\
  (RAM_CMD_SIZE - 4) - ((4092 - 4095) mod RAM_CMD_SIZE) = -1 /\
  fst (CmdGetFreeCmdSpace faulted_world)
  <> (RAM_CMD_SIZE - 4)
     - ((index (_cmd_index faulted_world) - fst (RegRead16 REG_CMD_READ faulted_world))
        mod RAM_CMD_SIZE).
Proof.
  split; [|split; [|split; [|split]]]; vm_compute; try reflexivity.
  discriminate.
Qed.

(** C1, amended: [CmdGetFreeCmdSpace] returns
    (RAM_CMD_SIZE - 4) - ((w - r) mod RAM_CMD_SIZE) reduced modulo 2^16,
    where w is the local write index and r the value read from the read
    pointer; this is the unreduced value whenever the used space is at most
    RAM_CMD_SIZE - 4, as it is when w and r are multiples of 4.  Starting
    from w = r and appending K bytes with [Cmd] while the chip keeps
    reporting r, the free space is (RAM_CMD_SIZE - 4 - K) mod RAM_CMD_SIZE
    for K < RAM_CMD_SIZE - 4. *)
Theorem CmdGetFreeCmdSpace_value (w : World) :
  let r := fst (RegRead16 REG_CMD_READ w) in
  let used := (index (_cmd_index w) - r) mod RAM_CMD_SIZE in
  fst (CmdGetFreeCmdSpace w) = ((RAM_CMD_SIZE - 4) - used) mod 2 ^ 16 /\
  (used <= RAM_CMD_SIZE - 4 ->
   fst (CmdGetFreeCmdSpace w) = (RAM_CMD_SIZE - 4) - used) /\
  ((4 | index (_cmd_index w)) -> (4 | r) ->
   fst (CmdGetFreeCmdSpace w) = (RAM_CMD_SIZE - 4) - used) /\
  (forall commands : list Z,
     let K := 4 * Z.of_nat (length commands) in
     let w' := snd (Cmd_all commands w) in
     K < RAM_CMD_SIZE - 4 ->
     fst (RegRead16 REG_CMD_READ w') = index (_cmd_index w) ->
     fst (CmdGetFreeCmdSpace w') = (RAM_CMD_SIZE - 4 - K) mod RAM_CMD_SIZE /\
     fst (CmdGetFreeCmdSpace w') = RAM_CMD_SIZE - 4 - K).
Proof.
  cbv zeta. unfold index.
  set (r := fst (RegRead16 REG_CMD_READ w)).
  set (used := (_index (_cmd_index w) - r) mod RAM_CMD_SIZE).
  assert (Hused : 0 <= used < 4096) by (apply Z.mod_pos_bound; reflexivity).
  assert (Hrun : fst (CmdGetFreeCmdSpace w) = to_uint16 (RAM_CMD_SIZE - 4 - used))
    by apply CmdGetFreeCmdSpace_run.
  assert (Hsmall : used <= RAM_CMD_SIZE - 4 ->
                   fst (CmdGetFreeCmdSpace w) = RAM_CMD_SIZE - 4 - used).
  { intros Hle. rewrite Hrun. apply to_uint16_id.
    unfold is_uint16, RAM_CMD_SIZE in *. lia. }
  split; [exact Hrun|]. split; [exact Hsmall|]. split.
  - intros [a Ha] [b Hb]. apply Hsmall.
    pose proof (Z.div_mod (_index (_cmd_index w) - r) RAM_CMD_SIZE) as Hdm.
    fold used in Hdm. unfold RAM_CMD_SIZE in *. lia.
  - intros commands HK Hr.
    set (K := 4 * Z.of_nat (length commands)) in *.
    rewrite CmdGetFreeCmdSpace_run, Hr.
    rewrite Zminus_mod, Cmd_all_cmd_index, <- Zminus_mod.
    fold K. replace (_index (_cmd_index w) + K - _index (_cmd_index w)) with K by lia.
    unfold RAM_CMD_SIZE in *.
    rewrite (Z.mod_small K) by lia.
    rewrite to_uint16_id by (unfold is_uint16; lia).
    split; [|reflexivity]. symmetry. apply Z.mod_small. lia.
Qed.

(** ** Polling a register *)

Lemma RegRead8_effect address22 w :
  fst (RegRead8 address22 w) = polled w 0 /\
  transfers (_hal (snd (RegRead8 address22 w))) = (transfers (_hal w) + 5)%nat /\
  chip (_hal (snd (RegRead8 address22 w))) = chip (_hal w).
Proof.
  unfold polled, RegRead8, BeginMemoryTransaction, BeginTransaction,
    EndTransaction, Receive8, Send8, hal, bind, ret.
  cbn. repeat split; [do 2 f_equal; lia | lia].
Qed.

Lemma polled_after_poll address22 delay w j :
  polled (snd (hal (Delay delay) (snd (RegRead8 address22 w)))) j = polled w (S j).
Proof.
  destruct (RegRead8_effect address22 w) as (_ & Ht & Hc).
  unfold polled, hal, Delay, modify, log. cbn [fst snd _hal chip transfers].
  rewrite Ht, Hc. do 2 f_equal. lia.
Qed.

(** What the code does: the result is nonzero exactly when one of the
    polls before the last one read the expected value. *)
Lemma RegWait8_loop_nonzero address22 value delay : forall n w,
  fst (RegWait8_loop address22 value delay n w) <> 0 <->
  exists j, (S j < n)%nat /\ polled w j = value.
Proof.
  induction n as [|n IH]; intros w; cbn [RegWait8_loop].
  - unfold ret. cbn [fst]. split; [congruence|]. intros (j & Hj & _). lia.
  - rewrite bind_run.
    destruct (RegRead8_effect address22 w) as (Hr & _). rewrite Hr.
    destruct (Z.eqb_spec (polled w 0) value) as [Heq|Hne].
    + unfold ret. cbn [fst]. split.
      * intros Hn. exists O. split; [lia | exact Heq].
      * intros (j & Hj & _). lia.
    + rewrite bind_run, IH. split.
      * intros (j & Hj & Hp). exists (S j). split; [lia|].
        rewrite <- polled_after_poll with (address22 := address22) (delay := delay).
        exact Hp.
      * intros (j & Hj & Hp). destruct j as [|j]; [contradiction|].
        exists j. split; [lia|]. rewrite polled_after_poll. exact Hp.
Qed.

(** The result counts the tries left after the first matching poll. *)
Lemma RegWait8_loop_value address22 value delay : forall n w j,
  (j < n)%nat ->
  (forall i, (i < j)%nat -> polled w i <> value) ->
  polled w j = value ->
  fst (RegWait8_loop address22 value delay n w) = Z.of_nat (n - 1 - j).
Proof.
  induction n as [|n IH]; intros w j Hj Hbefore Hat; [lia|].
  cbn [RegWait8_loop]. rewrite bind_run.
  destruct (RegRead8_effect address22 w) as (Hr & _). rewrite Hr.
  destruct j as [|j].
  - rewrite Hat, Z.eqb_refl. unfold ret. cbn [fst]. f_equal. lia.
  - destruct (Z.eqb_spec (polled w 0) value) as [Heq|Hne].
    + exfalso. apply (Hbefore O); [lia | exact Heq].
    + rewrite bind_run, (IH _ j).
      * f_equal. lia.
      * lia.
      * intros i Hi. rewrite polled_after_poll. apply Hbefore. lia.
      * rewrite polled_after_poll. exact Hat.
Qed.

(** C3 at failing inputs: with one try allowed and a chip that answers
    0x7C at once, and with 250 tries allowed and a chip that answers 0x7C
    to the 250th poll, [RegWait8] returns 0, the value that stands for a
    timeout; [Begin] then leaves at the timeout of the identification
    register although the register did read 0x7C within 250 tries. *)
Theorem RegWait8_match_on_last_try_returns_0 :
  (polled (fresh_world ready_chip 0) 0 = 0x7C /\
   fst (RegWait8 REG_ID 0x7C 1 1 (fresh_world ready_chip 0)) = 0) /\
  (polled (fresh_world (chip_ready_at 1249) 0) 249 = 0x7C /\
   fst (RegWait8 REG_ID 0x7C 250 1 (fresh_world (chip_ready_at 1249) 0)) = 0) /\
  fst (@Begin_exit Steve_base cfa480128profile (fresh_world (chip_ready_at 1258) 0))
  = ExitTimeoutId.
Proof. split; [split | split; [split|]]; vm_compute; reflexivity. Qed.

(** ** Co-processor commands with output slots *)

Lemma mod_cmd_size_uint16 x : to_uint16 x mod RAM_CMD_SIZE = x mod RAM_CMD_SIZE.
Proof. apply (to_uint16_mod x 12). lia. Qed.

Lemma mod_cmd_size_uint32 x : to_uint32 x mod RAM_CMD_SIZE = x mod RAM_CMD_SIZE.
Proof. apply (mod_pow2_mod_pow2 x 12 32). lia. Qed.

Lemma mod_cmd_size_int16 x : to_int16 x mod RAM_CMD_SIZE = x mod RAM_CMD_SIZE.
Proof. apply (to_int16_mod x 12). lia. Qed.

(** Congruence modulo the buffer size is kept by adding equal amounts. *)
Lemma mod_cmd_size_add a b c :
  a mod RAM_CMD_SIZE = b mod RAM_CMD_SIZE ->
  (a + c) mod RAM_CMD_SIZE = (b + c) mod RAM_CMD_SIZE.
Proof.
  intros H. rewrite (Zplus_mod a), (Zplus_mod b), H. reflexivity.
Qed.

Lemma SendAlignmentBytes_loop_counts fuel : forall result,
  counts_from result (SendAlignmentBytes_loop fuel result).
Proof.
  induction fuel as [|fuel IH]; intros result h; cbn [SendAlignmentBytes_loop].
  - destruct (result mod 4 =? 0); unfold ret; cbn [fst snd]; f_equal; lia.
  - destruct (result mod 4 =? 0).
    + unfold ret. cbn [fst snd]. f_equal. lia.
    + rewrite bind_run, IH, Send8_transfers.
      rewrite (mod_cmd_size_add _ (result + 1) _ (mod_cmd_size_uint32 _)).
      f_equal. lia.
Qed.

Lemma SendBuffer_loop_counts data : forall result,
  counts_from result (SendBuffer_loop data result).
Proof.
  induction data as [|b data IH]; intros result h; cbn [SendBuffer_loop].
  - unfold ret. cbn [fst snd]. f_equal. lia.
  - rewrite bind_run, IH, Send8_transfers.
    rewrite (mod_cmd_size_add _ (result + 1) _ (mod_cmd_size_uint32 _)).
    f_equal. lia.
Qed.

Lemma SendString_loop_counts abi maxlen s : forall result,
  counts_from result (SendString_loop abi s maxlen result).
Proof.
  induction s as [|c s IH]; intros result h; cbn [SendString_loop].
  - destruct (SendString_continue abi result maxlen);
      unfold ret; cbn [fst snd]; f_equal; lia.
  - destruct (SendString_continue abi result maxlen);
      [destruct (c =? 0)|]; try (unfold ret; cbn [fst snd]; f_equal; lia).
    rewrite bind_run, IH, Send8_transfers.
    rewrite (mod_cmd_size_add _ (result + 1) _ (mod_cmd_size_uint16 _)).
    f_equal. lia.
Qed.

Lemma SendString_counts abi message maxlen :
  counts_from 0 (SendString abi message maxlen).
Proof.
  intros h. unfold SendString. rewrite !bind_run. unfold ret. cbn [fst snd].
  rewrite Send8_transfers, mod_cmd_size_uint16.
  rewrite (mod_cmd_size_add _ _ 1 (SendString_loop_counts abi _ _ 0 h)).
  f_equal. lia.
Qed.

Lemma hal_run {A : Type} (m : St SteveHAL A) w :
  hal m w
  = (fst (m (_hal w)),
     {| _hal := snd (m (_hal w));
        _dl_index := _dl_index w;
        _cmd_index := _cmd_index w;
        cmdindex_cells := cmdindex_cells w;
        bool_cells := bool_cells w |}).
Proof. unfold hal. destruct (m (_hal w)). reflexivity. Qed.

Lemma mod_cmd_size_cong a b :
  a mod RAM_CMD_SIZE = b mod RAM_CMD_SIZE <-> exists q, a = b + RAM_CMD_SIZE * q.
Proof.
  split.
  - intros H. exists (a / RAM_CMD_SIZE - b / RAM_CMD_SIZE).
    pose proof (Z.div_mod a RAM_CMD_SIZE). pose proof (Z.div_mod b RAM_CMD_SIZE).
    unfold RAM_CMD_SIZE in *. lia.
  - intros [q ->]. rewrite Z.mul_comm. apply Z.mod_add. discriminate.
Qed.

(** Each parameter macro advances [result] by the number of bytes it puts
    on the bus, modulo the buffer size, and leaves [_cmd_index] alone. *)
Lemma cmd_param_run_counts abi p result w :
  fst (cmd_param_run abi p result w) mod RAM_CMD_SIZE
  = (result + emitted w (snd (cmd_param_run abi p result w))) mod RAM_CMD_SIZE /\
  _cmd_index (snd (cmd_param_run abi p result w)) = _cmd_index w.
Proof.
  destruct p as [value|value|value maxlen|value|name]; cbn [cmd_param_run].
  - rewrite bind_run, hal_run. unfold ret, emitted. cbn [fst snd _hal _cmd_index].
    rewrite mod_cmd_size_int16. split; [|reflexivity]. f_equal.
    unfold Send16, bind, ret, Transfer. cbn [fst snd transfers]. lia.
  - rewrite bind_run, hal_run. unfold ret, emitted. cbn [fst snd _hal _cmd_index].
    rewrite mod_cmd_size_int16. split; [|reflexivity]. f_equal.
    unfold Send32, bind, ret, Transfer. cbn [fst snd transfers]. lia.
  - rewrite !bind_run, !hal_run. unfold ret, emitted.
    cbn [fst snd _hal _cmd_index].
    rewrite mod_cmd_size_int16. split; [|reflexivity].
    pose proof (SendString_counts abi value maxlen (_hal w)) as H1.
    set (n := fst (SendString abi value maxlen (_hal w))) in *.
    set (h1 := snd (SendString abi value maxlen (_hal w))) in *.
    pose proof (SendAlignmentBytes_loop_counts 3 (to_uint32 n) h1) as H2.
    fold (SendAlignmentBytes n) in H2.
    apply mod_cmd_size_cong in H1, H2. destruct H1 as [q1 H1], H2 as [q2 H2].
    pose proof (proj1 (mod_cmd_size_cong _ _) (mod_cmd_size_uint32 n)) as [q3 H3].
    apply mod_cmd_size_cong. exists (q1 + q2 + q3). lia.
  - rewrite !bind_run, !hal_run. unfold ret, emitted.
    cbn [fst snd _hal _cmd_index].
    rewrite mod_cmd_size_int16. split; [|reflexivity].
    pose proof (SendBuffer_loop_counts value 0 (_hal w)) as H1.
    fold (SendBuffer value) in H1.
    set (n := fst (SendBuffer value (_hal w))) in *.
    set (h1 := snd (SendBuffer value (_hal w))) in *.
    pose proof (SendAlignmentBytes_loop_counts 3 (to_uint32 n) h1) as H2.
    fold (SendAlignmentBytes n) in H2.
    apply mod_cmd_size_cong in H1, H2. destruct H1 as [q1 H1], H2 as [q2 H2].
    pose proof (proj1 (mod_cmd_size_cong _ _) (mod_cmd_size_uint32 n)) as [q3 H3].
    apply mod_cmd_size_cong. exists (q1 + q2 + q3). lia.
  - destruct name as [name|]; rewrite !bind_run, hal_run;
      unfold ret, get, store_cmdindex, modify, emitted;
      cbn [fst snd _hal _cmd_index]; rewrite mod_cmd_size_int16;
      (split; [|reflexivity]); f_equal;
      unfold Send32, bind, ret, Transfer; cbn [fst snd transfers]; lia.
Qed.

Lemma emitted_trans w1 w2 w3 : emitted w1 w3 = emitted w1 w2 + emitted w2 w3.
Proof. unfold emitted. lia. Qed.

Lemma cmd_params_run_counts abi ps : forall result w,
  fst (cmd_params_run abi ps result w) mod RAM_CMD_SIZE
  = (result + emitted w (snd (cmd_params_run abi ps result w))) mod RAM_CMD_SIZE /\
  _cmd_index (snd (cmd_params_run abi ps result w)) = _cmd_index w.
Proof.
  induction ps as [|p ps IH]; intros result w; cbn [cmd_params_run].
  - unfold ret, emitted. cbn [fst snd]. split; [f_equal; lia | reflexivity].
  - rewrite bind_run.
    destruct (cmd_param_run_counts abi p result w) as [H1 H1'].
    destruct (IH (fst (cmd_param_run abi p result w))
                 (snd (cmd_param_run abi p result w))) as [H2 H2'].
    split; [|congruence].
    rewrite (emitted_trans w (snd (cmd_param_run abi p result w))).
    apply mod_cmd_size_cong in H1, H2. destruct H1 as [q1 H1], H2 as [q2 H2].
    apply mod_cmd_size_cong. exists (q1 + q2). lia.
Qed.

Lemma cmd_params_run_app abi ps1 ps2 : forall result w,
  cmd_params_run abi (ps1 ++ ps2) result w
  = cmd_params_run abi ps2 (fst (cmd_params_run abi ps1 result w))
                           (snd (cmd_params_run abi ps1 result w)).
Proof.
  induction ps1 as [|p ps1 IH]; intros result w; cbn [cmd_params_run app].
  - reflexivity.
  - rewrite !bind_run. apply IH.
Qed.

(** A parameter other than an output slot for [name] leaves the caller's
    object at [name] alone. *)
Lemma cmd_param_run_cells abi p name result w :
  p <> Q4 (Some name) ->
  cmdindex_cells (snd (cmd_param_run abi p result w)) !! name
  = cmdindex_cells w !! name.
Proof.
  intros Hp.
  destruct p as [value|value|value maxlen|value|[name'|]]; cbn [cmd_param_run];
    rewrite !bind_run, ?hal_run;
    unfold ret, get, store_cmdindex, modify; cbn [fst snd cmdindex_cells];
    try reflexivity.
  apply lookup_insert_ne. congruence.
Qed.

Lemma cmd_params_run_cells abi name ps : forall result w,
  ~ In (Q4 (Some name)) ps ->
  cmdindex_cells (snd (cmd_params_run abi ps result w)) !! name
  = cmdindex_cells w !! name.
Proof.
  induction ps as [|p ps IH]; intros result w Hps; cbn [cmd_params_run].
  - reflexivity.
  - rewrite bind_run, IH by (intros H; apply Hps; right; exact H).
    apply cmd_param_run_cells. intros ->. apply Hps. left. reflexivity.
Qed.

(** The output slot itself: the index stored is [_cmd_index + result], and
    four zero bytes follow on the bus. *)
Lemma Q4_run abi name result w :
  let w' := snd (cmd_param_run abi (Q4 (Some name)) result w) in
  cmdindex_cells w' !! name = Some (Index_add RAM_CMD_SIZE (_cmd_index w) result) /\
  sent (trace (_hal w')) = sent (trace (_hal w)) ++ [0; 0; 0; 0] /\
  emitted w w' = 4.
Proof.
  cbn [cmd_param_run]. rewrite !bind_run, hal_run.
  unfold ret, get, store_cmdindex, modify, emitted.
  cbn [fst snd _hal cmdindex_cells].
  split; [apply lookup_insert_eq|].
  unfold Send32, bind, ret, Transfer. cbn [fst snd transfers trace].
  split; [|lia].
  rewrite !sent_app, <- !app_assoc. reflexivity.
Qed.

(** [Cmd] puts the four bytes of the command word on the bus after opening
    the write transaction, and advances the write index by 4. *)
Lemma Cmd_effect command w :
  let w_open := snd (BeginMemoryTransaction (RAM_CMD + index (_cmd_index w)) true w) in
  emitted w_open (snd (Cmd command w)) = 4 /\
  cmdindex_cells (snd (Cmd command w)) = cmdindex_cells w.
Proof.
  unfold Cmd. rewrite !bind_run. unfold get, ret. cbn [fst snd].
  rewrite hal_run. unfold set_cmd_index, modify, emitted.
  cbn [fst snd _hal cmdindex_cells].
  split.
  - unfold Send32, bind, ret, Transfer. cbn [fst snd transfers]. lia.
  - pose proof (fun a b => ltac:(frame_ops) :
        preserves cmdindex_cells (BeginMemoryTransaction a b)) as H.
    apply H.
Qed.

(** C7: for a command whose parameter list holds an output slot
    [Q4(name)] with a non-null [name], the index stored through [name] is
    the write position just before the four reserved zero bytes go out:
    [_cmd_index], which [Cmd] has advanced past the command word, plus the
    parameter bytes already emitted, that is the write index on entry plus
    the bytes of the record emitted so far; it is not the position after
    the reserved bytes.  The value is still there when the command
    returns, provided no later slot of the command uses the same
    pointer. *)
Theorem Q4_stores_position_before_slot
    (abi : int_model) (enc_cmd : Z) (pre : list cmd_param) (name : nat)
    (post : list cmd_param) (w : World) :
  ~ In (Q4 (Some name)) post ->
  let entry := index (_cmd_index w) in
  let w_open := snd (BeginMemoryTransaction (RAM_CMD + entry) true w) in
  let w_cmd := snd (Cmd enc_cmd w) in
  let w_pre := snd (cmd_params_run abi pre 0 w_cmd) in
  let result := fst (cmd_params_run abi pre 0 w_cmd) in
  let w_slot := snd (cmd_param_run abi (Q4 (Some name)) result w_pre) in
  let w_end := snd (CMD abi enc_cmd (pre ++ Q4 (Some name) :: post) w) in
  exists stored,
    cmdindex_cells w_slot !! name = Some stored /\
    cmdindex_cells w_end !! name = Some stored /\
    index stored = (index (_cmd_index w_cmd) + emitted w_cmd w_pre) mod RAM_CMD_SIZE /\
    index stored = (entry + emitted w_open w_pre) mod RAM_CMD_SIZE /\
    emitted w_open w_pre = 4 + emitted w_cmd w_pre /\
    sent (trace (_hal w_slot)) = sent (trace (_hal w_pre)) ++ [0; 0; 0; 0] /\
    emitted w_pre w_slot = 4 /\
    index stored <> (entry + emitted w_open w_slot) mod RAM_CMD_SIZE.
Proof.
  intros Hpost. cbv zeta.
  set (w_cmd := snd (Cmd enc_cmd w)).
  set (w_open := snd (BeginMemoryTransaction (RAM_CMD + index (_cmd_index w)) true w)).
  destruct (Cmd_effect enc_cmd w) as [Hcmd _]. fold w_open w_cmd in Hcmd.
  destruct (cmd_params_run_counts abi pre 0 w_cmd) as [Hres Hidx].
  set (w_pre := snd (cmd_params_run abi pre 0 w_cmd)) in *.
  set (result := fst (cmd_params_run abi pre 0 w_cmd)) in *.
  destruct (Q4_run abi name result w_pre) as (Hcell & Hsent & Hslot).
  set (w_slot := snd (cmd_param_run abi (Q4 (Some name)) result w_pre)) in *.
  exists (Index_add RAM_CMD_SIZE (_cmd_index w_pre) result).
  assert (Hstored : index (Index_add RAM_CMD_SIZE (_cmd_index w_pre) result)
                    = (index (_cmd_index w_cmd) + emitted w_cmd w_pre) mod RAM_CMD_SIZE).
  { unfold index. change RAM_CMD_SIZE with (2 ^ 12).
    rewrite Index_add_mod by lia. rewrite Hidx.
    change (2 ^ 12) with RAM_CMD_SIZE.
    rewrite Z.add_0_l in Hres.
    rewrite Zplus_mod, Hres, <- Zplus_mod. reflexivity. }
  assert (Hentry : index (_cmd_index w_cmd) mod RAM_CMD_SIZE
                   = (index (_cmd_index w) + 4) mod RAM_CMD_SIZE).
  { unfold w_cmd, index. rewrite Cmd_cmd_index.
    change RAM_CMD_SIZE with (2 ^ 12).
    rewrite Index_add_assign_mod by lia. apply Z.mod_mod. discriminate. }
  assert (Hopen : emitted w_open w_pre = 4 + emitted w_cmd w_pre)
    by (rewrite (emitted_trans w_open w_cmd), Hcmd; reflexivity).
  assert (Hstored' : index (Index_add RAM_CMD_SIZE (_cmd_index w_pre) result)
                     = (index (_cmd_index w) + emitted w_open w_pre) mod RAM_CMD_SIZE).
  { rewrite Hstored, Hopen, Zplus_mod, Hentry, <- Zplus_mod. f_equal. lia. }
  split; [exact Hcell|]. split; [|split; [exact Hstored|]].
  - unfold CMD. rewrite !bind_run. unfold get, ret, set_cmd_index, modify.
    cbn [fst snd cmdindex_cells].
    fold w_cmd. rewrite cmd_params_run_app. cbn [cmd_params_run].
    rewrite bind_run. fold w_pre result w_slot.
    rewrite cmd_params_run_cells by exact Hpost. exact Hcell.
  - split; [exact Hstored'|]. split; [exact Hopen|].
    split; [exact Hsent|]. split; [exact Hslot|].
    rewrite Hstored', (emitted_trans w_open w_pre w_slot), Hslot.
    intros Heq. apply mod_cmd_size_cong in Heq. destruct Heq as [q Hq].
    unfold RAM_CMD_SIZE in Hq. lia.
Qed.

Lemma Q4_stores_position_before_slot_witness :
  let w := fresh_world (fun _ => 0) 4088 in
  let entry := index (_cmd_index w) in
  let w_open := snd (BeginMemoryTransaction (RAM_CMD + entry) true w) in
  let w_cmd := snd (Cmd ENC_CMD_MEMCRC w) in
  let w_pre := snd (cmd_params_run Int32 [V4 0; V4 1024] 0 w_cmd) in
  let result := fst (cmd_params_run Int32 [V4 0; V4 1024] 0 w_cmd) in
  let w_slot := snd (cmd_param_run Int32 (Q4 (Some 7%nat)) result w_pre) in
  let w_end := snd (CMD Int32 ENC_CMD_MEMCRC ([V4 0; V4 1024] ++ Q4 (Some 7%nat) :: []) w) in
  exists stored,
    cmdindex_cells w_slot !! 7%nat = Some stored /\
    cmdindex_cells w_end !! 7%nat = Some stored /\
    index stored = (index (_cmd_index w_cmd) + emitted w_cmd w_pre) mod RAM_CMD_SIZE /\
    index stored = (entry + emitted w_open w_pre) mod RAM_CMD_SIZE /\
    emitted w_open w_pre = 4 + emitted w_cmd w_pre /\
    sent (trace (_hal w_slot)) = sent (trace (_hal w_pre)) ++ [0; 0; 0; 0] /\
    emitted w_pre w_slot = 4 /\
    index stored <> (entry + emitted w_open w_slot) mod RAM_CMD_SIZE.
Proof.
  apply (Q4_stores_position_before_slot Int32 ENC_CMD_MEMCRC [V4 0; V4 1024] 7%nat []
           (fresh_world (fun _ => 0) 4088)).
  intros [].
Defined.

(** [cmd_MEMCRC], [cmd_GETPTR] and [cmd_CALIBRATE] near the end of the
    buffer: the stored index is the offset of the reserved bytes and wraps
    with the buffer. *)
Lemma cmd_MEMCRC_GETPTR_CALIBRATE_examples :
  let w := fresh_world (fun _ => 0) 4088 in
  cmdindex_cells (snd (cmd_MEMCRC Int32 0 1024 (Some 7%nat) w)) !! 7%nat
  = Some {| _index := 4 |} /\
  fst (cmd_MEMCRC Int32 0 1024 (Some 7%nat) w) = {| _index := 8 |} /\
  cmdindex_cells (snd (cmd_GETPTR Int32 (Some 7%nat) w)) !! 7%nat
  = Some {| _index := 4092 |} /\
  fst (cmd_GETPTR Int32 (Some 7%nat) w) = {| _index := 0 |} /\
  cmdindex_cells (snd (cmd_CALIBRATE Int32 (Some 7%nat) w)) !! 7%nat
  = Some {| _index := 4092 |}.
Proof. cbv zeta. split; [|split; [|split; [|split]]]; vm_compute; reflexivity. Qed.

(** ** Transactions on the bus *)

Lemma bus_view_snoc t e : bus_view_of (t ++ [e]) = bus_step (bus_view_of t) e.
Proof. unfold bus_view_of. rewrite fold_left_app. reflexivity. Qed.

Lemma to_uint8_idem x : to_uint8 (to_uint8 x) = to_uint8 x.
Proof. unfold to_uint8. apply Z.mod_mod. discriminate. Qed.

Lemma BeginTransaction_starts data24 :
  starts_transaction (header_word data24) (BeginTransaction data24).
Proof.
  intros w. unfold view, BeginTransaction, EndTransaction, Send8, hal, bind, ret,
    Select, Transfer.
  cbn [fst snd _hal trace].
  rewrite !bus_view_snoc. cbn [bus_step phase words app].
  rewrite !to_uint8_idem. reflexivity.
Qed.

Lemma in_body_ret {A : Type} (a : A) : in_body (ret a).
Proof. intros w _. reflexivity. Qed.

Lemma in_body_bind {A B : Type} (m : St World A) (k : A -> St World B) :
  in_body m -> (forall a, in_body (k a)) -> in_body (bind m k).
Proof.
  intros Hm Hk w Hw. rewrite bind_run.
  rewrite Hk; [apply Hm; exact Hw|]. rewrite Hm; exact Hw.
Qed.

Lemma in_body_Transfer value : in_body (hal (Transfer value)).
Proof.
  intros w Hw. unfold view in *. rewrite hal_run. unfold Transfer.
  cbn [fst snd _hal trace]. rewrite bus_view_snoc. cbn [bus_step].
  rewrite Hw. reflexivity.
Qed.

Lemma hal_bind {A B : Type} (m : St SteveHAL A) (k : A -> St SteveHAL B) w :
  hal (bind m k) w = bind (hal m) (fun a => hal (k a)) w.
Proof.
  rewrite bind_run, !hal_run, bind_run. cbn [fst snd _hal _dl_index _cmd_index
    cmdindex_cells bool_cells]. reflexivity.
Qed.

Lemma in_body_hal_bind {A B : Type} (m : St SteveHAL A) (k : A -> St SteveHAL B) :
  in_body (hal m) -> (forall a, in_body (hal (k a))) -> in_body (hal (bind m k)).
Proof.
  intros Hm Hk w Hw. rewrite hal_bind. apply in_body_bind; assumption.
Qed.

Lemma in_body_hal_ret {A : Type} (a : A) : in_body (hal (ret a)).
Proof. intros w _. rewrite hal_run. destruct w. reflexivity. Qed.

Ltac in_body :=
  repeat first
    [ apply in_body_hal_ret
    | apply in_body_ret
    | apply in_body_Transfer
    | apply in_body_hal_bind; [|intros]
    | apply in_body_bind; [|intros] ].

Lemma in_body_Send8 v : in_body (hal (Send8 v)).
Proof. unfold Send8. in_body. Qed.

Lemma in_body_Send16 v : in_body (hal (Send16 v)).
Proof. unfold Send16. in_body. Qed.

Lemma in_body_Send32 v : in_body (hal (Send32 v)).
Proof. unfold Send32. in_body. Qed.

Lemma in_body_Receive8 : in_body (hal Receive8).
Proof. unfold Receive8. in_body. Qed.

Lemma in_body_Receive16 : in_body (hal Receive16).
Proof. unfold Receive16. in_body. Qed.

Lemma in_body_Receive32 : in_body (hal Receive32).
Proof. unfold Receive32. in_body. Qed.

Lemma starts_then_body {A B : Type} word (m : St World A) (k : A -> St World B) :
  starts_transaction word m -> (forall a, in_body (k a)) ->
  starts_transaction word (bind m k).
Proof.
  intros Hm Hk w. rewrite bind_run, Hk; [apply Hm|]. rewrite Hm. reflexivity.
Qed.

Lemma BeginMemoryTransaction_starts address22 (write : bool) :
  starts_transaction
    (header_word (to_uint32 (Z.lor (if write then HOSTCMD_WRITE else HOSTCMD_READ) address22)))
    (BeginMemoryTransaction address22 write).
Proof.
  unfold BeginMemoryTransaction. apply starts_then_body.
  - apply BeginTransaction_starts.
  - intros []. destruct write; cbn [negb]; [apply in_body_ret | apply in_body_Send8].
Qed.

Lemma header_word_chip_id data24 :
  header_word data24 = Z.lor HOSTCMD_READ REG_CHIP_ID ->
  to_uint8 (Z.shiftr data24 16) = 12.
Proof.
  unfold header_word. change (Z.lor HOSTCMD_READ REG_CHIP_ID) with (12 * 65536).
  pose proof (to_uint8_range (Z.shiftr data24 16)).
  pose proof (to_uint8_range (Z.shiftr data24 8)).
  pose proof (to_uint8_range data24).
  unfold is_uint8 in *. lia.
Qed.

Lemma top_byte_testbit d i :
  0 <= i < 8 ->
  Z.testbit (to_uint8 (Z.shiftr (to_uint32 d) 16)) i = Z.testbit d (i + 16).
Proof.
  intros Hi. unfold to_uint8, to_uint32.
  rewrite Z.mod_pow2_bits_low by lia.
  rewrite Z.shiftr_spec by lia.
  apply Z.mod_pow2_bits_low. lia.
Qed.

(** A transaction word with bit 22 or bit 23 set (a host command other
    than ACTIVE, or a memory write) is not a read of the chip identifier. *)
Lemma header_word_not_chip_id d :
  Z.testbit d 22 = true \/ Z.testbit d 23 = true ->
  header_word (to_uint32 d) <> Z.lor HOSTCMD_READ REG_CHIP_ID.
Proof.
  intros Hbit Heq. apply header_word_chip_id in Heq.
  pose proof (top_byte_testbit d 6 ltac:(lia)) as H6.
  pose proof (top_byte_testbit d 7 ltac:(lia)) as H7.
  rewrite Heq in H6, H7.
  change (Z.testbit 12 6) with false in H6. change (6 + 16) with 22 in H6.
  change (Z.testbit 12 7) with false in H7. change (7 + 16) with 23 in H7.
  destruct Hbit as [H|H]; congruence.
Qed.

(** It is enough to exhibit the words added. *)
Lemma quiet_intro {A : Type} (m : St World A) :
  (forall w, exists added,
      transactions (trace (_hal (snd (m w))))
      = transactions (trace (_hal w)) ++ added /\
      ~ In (Z.lor HOSTCMD_READ REG_CHIP_ID) added) ->
  quiet m.
Proof.
  intros H w. destruct (H w) as (added & Heq & Hn).
  unfold added_transactions. rewrite Heq, drop_app_length.
  split; [reflexivity | exact Hn].
Qed.

Lemma quiet_of_starts {A : Type} word (m : St World A) :
  starts_transaction word m -> word <> Z.lor HOSTCMD_READ REG_CHIP_ID -> quiet m.
Proof.
  intros Hm Hw. apply quiet_intro. intros w. exists [word].
  change (transactions (trace (_hal (snd (m w))))) with (words (view (snd (m w)))).
  rewrite Hm. cbn [words]. split; [reflexivity|].
  intros [H|[]]. exact (Hw H).
Qed.

Lemma quiet_of_no_transaction {A : Type} (m : St World A) :
  no_transaction m -> quiet m.
Proof.
  intros Hm. apply quiet_intro. intros w. exists [].
  change (transactions (trace (_hal (snd (m w))))) with (words (view (snd (m w)))).
  rewrite Hm, app_nil_r. split; [reflexivity | intros []].
Qed.

Lemma quiet_ret {A : Type} (a : A) : quiet (ret a).
Proof. apply quiet_of_no_transaction. intros w. reflexivity. Qed.

Lemma quiet_bind {A B : Type} (m : St World A) (k : A -> St World B) :
  quiet m -> (forall a, quiet (k a)) -> quiet (bind m k).
Proof.
  intros Hm Hk. apply quiet_intro. intros w.
  destruct (Hm w) as [Heq1 Hn1].
  destruct (Hk (fst (m w)) (snd (m w))) as [Heq2 Hn2].
  exists (added_transactions m w
          ++ added_transactions (k (fst (m w))) (snd (m w))).
  rewrite bind_run, Heq2, Heq1 at 1. rewrite <- app_assoc.
  split; [reflexivity|].
  rewrite in_app_iff. intros [H|H]; [exact (Hn1 H) | exact (Hn2 H)].
Qed.

Lemma quiet_get : quiet get.
Proof. apply quiet_of_no_transaction. intros w. reflexivity. Qed.

Lemma quiet_set_dl_index i : quiet (set_dl_index i).
Proof. apply quiet_of_no_transaction. intros w. reflexivity. Qed.

Lemma quiet_set_cmd_index i : quiet (set_cmd_index i).
Proof. apply quiet_of_no_transaction. intros w. reflexivity. Qed.

(** Calls of the transport that transfer nothing begin no transaction. *)
Lemma no_transaction_log e :
  (forall b r, e <> EvTransfer b r) ->
  forall v, words (bus_step v e) = words v.
Proof.
  intros He v. destruct e as [| | |[]| |]; cbn [bus_step]; try reflexivity.
  - destruct (phase v); reflexivity.
  - exfalso. eapply He. reflexivity.
Qed.

Lemma quiet_Init slow : quiet (hal (Init slow)).
Proof.
  apply quiet_of_no_transaction. intros w. unfold view. rewrite hal_run.
  cbn [snd _hal Init modify log trace]. rewrite bus_view_snoc.
  apply no_transaction_log. discriminate.
Qed.

Lemma quiet_HAL_Pause pause : quiet (hal (HAL_Pause pause)).
Proof.
  apply quiet_of_no_transaction. intros w. unfold view. rewrite hal_run.
  cbn [snd _hal HAL_Pause modify log trace]. rewrite bus_view_snoc.
  apply no_transaction_log. discriminate.
Qed.

Lemma quiet_Power enable : quiet (hal (Power enable)).
Proof.
  apply quiet_of_no_transaction. intros w. unfold view. rewrite hal_run.
  cbn [snd _hal Power modify log trace]. rewrite bus_view_snoc.
  apply no_transaction_log. discriminate.
Qed.

Lemma quiet_Delay ms : quiet (hal (Delay ms)).
Proof.
  apply quiet_of_no_transaction. intros w. unfold view. rewrite hal_run.
  cbn [snd _hal Delay modify log trace]. rewrite bus_view_snoc.
  apply no_transaction_log. discriminate.
Qed.

Lemma quiet_Select enable : quiet (hal (Select enable)).
Proof.
  apply quiet_of_no_transaction. intros w. unfold view. rewrite hal_run.
  cbn [snd _hal Select trace]. rewrite bus_view_snoc.
  apply no_transaction_log. discriminate.
Qed.

Lemma testbit_lor_l a b n : Z.testbit a n = true -> Z.testbit (Z.lor a b) n = true.
Proof. intros H. rewrite Z.lor_spec, H. reflexivity. Qed.

Lemma quiet_HostCommand hostcmd parameter :
  Z.testbit hostcmd 22 = true -> quiet (HostCommand hostcmd parameter).
Proof.
  intros H. unfold HostCommand.
  eapply quiet_of_starts; [apply BeginTransaction_starts|].
  apply header_word_not_chip_id. left. apply testbit_lor_l, H.
Qed.

Lemma quiet_HostCommand_ACTIVE : quiet (HostCommand HOSTCMD_ACTIVE 0).
Proof.
  unfold HostCommand.
  eapply quiet_of_starts; [apply BeginTransaction_starts|].
  vm_compute. discriminate.
Qed.

Lemma write_not_chip_id address22 :
  header_word (to_uint32 (Z.lor HOSTCMD_WRITE address22))
  <> Z.lor HOSTCMD_READ REG_CHIP_ID.
Proof.
  apply header_word_not_chip_id. right. apply testbit_lor_l. reflexivity.
Qed.

Lemma quiet_RegWrite8 address22 value : quiet (RegWrite8 address22 value).
Proof.
  eapply quiet_of_starts; [|apply (write_not_chip_id address22)].
  unfold RegWrite8. apply starts_then_body.
  - apply (BeginMemoryTransaction_starts address22 true).
  - intros _. apply in_body_Send8.
Qed.

Lemma quiet_RegWrite16 address22 value : quiet (RegWrite16 address22 value).
Proof.
  eapply quiet_of_starts; [|apply (write_not_chip_id address22)].
  unfold RegWrite16. apply starts_then_body.
  - apply (BeginMemoryTransaction_starts address22 true).
  - intros _. apply in_body_Send16.
Qed.

Lemma quiet_RegWrite32 address22 value : quiet (RegWrite32 address22 value).
Proof.
  eapply quiet_of_starts; [|apply (write_not_chip_id address22)].
  unfold RegWrite32. apply starts_then_body.
  - apply (BeginMemoryTransaction_starts address22 true).
  - intros _. apply in_body_Send32.
Qed.

Lemma quiet_RegRead8 address22 :
  header_word (to_uint32 (Z.lor HOSTCMD_READ address22))
  <> Z.lor HOSTCMD_READ REG_CHIP_ID ->
  quiet (RegRead8 address22).
Proof.
  intros H. eapply quiet_of_starts; [|exact H].
  unfold RegRead8. apply starts_then_body.
  - apply (BeginMemoryTransaction_starts address22 false).
  - intros _. apply in_body_Receive8.
Qed.

Lemma quiet_RegRead16 address22 :
  header_word (to_uint32 (Z.lor HOSTCMD_READ address22))
  <> Z.lor HOSTCMD_READ REG_CHIP_ID ->
  quiet (RegRead16 address22).
Proof.
  intros H. eapply quiet_of_starts; [|exact H].
  unfold RegRead16. apply starts_then_body.
  - apply (BeginMemoryTransaction_starts address22 false).
  - intros _. apply in_body_Receive16.
Qed.

Lemma quiet_RegWait8 address22 value maxtries delay :
  header_word (to_uint32 (Z.lor HOSTCMD_READ address22))
  <> Z.lor HOSTCMD_READ REG_CHIP_ID ->
  quiet (RegWait8 address22 value maxtries delay).
Proof.
  intros H. unfold RegWait8.
  induction (Z.to_nat (to_uint8 maxtries)) as [|n IH]; cbn [RegWait8_loop].
  - apply quiet_ret.
  - apply quiet_bind; [apply quiet_RegRead8, H|].
    intros r. destruct (r =? to_uint8 value); [apply quiet_ret|].
    apply quiet_bind; [apply quiet_Delay|]. intros _. exact IH.
Qed.

Lemma quiet_pindrive_loop p : quiet (pindrive_loop p).
Proof.
  induction p as [|b p IH]; cbn [pindrive_loop].
  - apply quiet_ret.
  - destruct (to_uint8 b =? 255); [apply quiet_ret|].
    apply quiet_bind; [apply quiet_HostCommand; reflexivity|].
    intros _. exact IH.
Qed.

Lemma quiet_DLAdd value : quiet (DLAdd value).
Proof.
  unfold DLAdd. apply quiet_bind; [apply quiet_get|]. intros w.
  apply quiet_bind; [apply quiet_RegWrite32|]. intros _.
  apply quiet_bind; [apply quiet_set_dl_index|]. intros _. apply quiet_ret.
Qed.

Lemma quiet_CmdInitWriteIndex : quiet CmdInitWriteIndex.
Proof.
  unfold CmdInitWriteIndex.
  apply quiet_bind; [apply quiet_RegRead16; vm_compute; discriminate|]. intros r.
  apply quiet_bind; [apply quiet_set_cmd_index|]. intros _. apply quiet_ret.
Qed.

Lemma quiet_End : quiet End.
Proof.
  unfold End, Pause.
  repeat first
    [ apply quiet_ret | apply quiet_Delay | apply quiet_Power
    | apply quiet_HAL_Pause | apply quiet_Select
    | apply quiet_bind; [|intros ?] ].
Qed.

(** The virtual functions of the base class read no chip identifier. *)
Lemma quiet_Steve_EarlyInit : quiet Steve_EarlyInit.
Proof. apply quiet_ret. Qed.

Lemma quiet_Steve_TouchInit : quiet Steve_TouchInit.
Proof.
  unfold Steve_TouchInit.
  apply quiet_bind; [apply quiet_RegWrite8|]. intros _.
  apply quiet_bind; [apply quiet_RegWrite16|]. intros _. apply quiet_ret.
Qed.

(** ** Initialization *)

Lemma quiet_exit_bind_ret {A : Type} (a : A) (k : A -> St World begin_exit) :
  quiet_exit (k a) -> quiet_exit (bind (ret a) k).
Proof.
  intros [Hq He]. split.
  - intros w. exact (Hq w).
  - intros w. exact (He w).
Qed.

Lemma quiet_exit_bind {A : Type} (m : St World A) (k : A -> St World begin_exit) :
  quiet m -> (forall a, quiet_exit (k a)) -> quiet_exit (bind m k).
Proof.
  intros Hm Hk. split.
  - apply quiet_bind; [exact Hm | intros a; apply Hk].
  - intros w. rewrite bind_run. apply Hk.
Qed.

Lemma quiet_exit_ret (e : begin_exit) :
  e <> ExitChipIdMismatch -> quiet_exit (ret e).
Proof. intros He. split; [apply quiet_ret | intros w; exact He]. Qed.

Ltac quiet_step :=
  match goal with
  | H : quiet ?m |- quiet ?m => exact H
  | |- quiet (ret _) => apply quiet_ret
  | |- quiet (bind _ _) => apply quiet_bind; [|intros ?]
  | |- quiet (if ?b then _ else _) => destruct b
  | |- quiet (match ?o with Some _ => _ | None => _ end) => destruct o
  | |- quiet End => apply quiet_End
  | |- quiet (hal (Delay _)) => apply quiet_Delay
  | |- quiet (hal (Power _)) => apply quiet_Power
  | |- quiet (hal (Init _)) => apply quiet_Init
  | |- quiet (hal (Select _)) => apply quiet_Select
  | |- quiet (HostCommand HOSTCMD_ACTIVE 0) => apply quiet_HostCommand_ACTIVE
  | |- quiet (HostCommand _ _) => apply quiet_HostCommand; reflexivity
  | |- quiet (RegWait8 _ _ _ _) => apply quiet_RegWait8; vm_compute; discriminate
  | |- quiet (RegRead16 _) => apply quiet_RegRead16; vm_compute; discriminate
  | |- quiet (RegWrite8 _ _) => apply quiet_RegWrite8
  | |- quiet (RegWrite16 _ _) => apply quiet_RegWrite16
  | |- quiet (RegWrite32 _ _) => apply quiet_RegWrite32
  | |- quiet CmdInitWriteIndex => apply quiet_CmdInitWriteIndex
  | |- quiet (pindrive_loop _) => apply quiet_pindrive_loop
  | |- quiet (set_dl_index _) => apply quiet_set_dl_index
  | |- quiet (dl_CLEAR_COLOR _) => apply quiet_DLAdd
  | |- quiet (dl_CLEAR _ _ _) => apply quiet_DLAdd
  | |- quiet dl_DISPLAY => apply quiet_DLAdd
  end.

Ltac begin_step :=
  match goal with
  | |- quiet_exit (bind (ret _) _) => apply quiet_exit_bind_ret; cbv beta iota
  | |- quiet_exit (bind _ _) =>
      apply quiet_exit_bind; [solve [repeat quiet_step] | intros ?]
  | |- quiet_exit (if ?b then _ else _) => destruct b
  | |- quiet_exit (ret _) => apply quiet_exit_ret; discriminate
  end.

(** With the wildcard as expected identifier, [Begin] starts no read of
    the chip identifier and does not leave at the identity mismatch,
    whatever the state it is called in and whatever the chip answers. *)
Lemma Begin_exit_wildcard `{SteveVirtuals} (_profile : SteveDisplay) :
  _chipid _profile = CHIPID_ANY ->
  quiet EarlyInit -> quiet TouchInit ->
  quiet_exit (Begin_exit _profile).
Proof.
  intros Hchip Hearly Htouch. unfold Begin_exit.
  replace (negb (_chipid _profile =? CHIPID_ANY)) with false
    by (rewrite Hchip; reflexivity).
  cbv iota.
  repeat begin_step.
Qed.

(** C8: when the profile's [_chipid] is [CHIPID_ANY], then in every
    execution of [Begin], from any state and whatever was on the bus
    before, the transactions [Begin] adds hold no read addressed to
    REG_CHIP_ID, and [Begin] does not fail with an identity mismatch.  The
    virtual functions [EarlyInit] and [TouchInit] are those of the base
    class or any that, from any state, add no such read themselves. *)
Theorem Begin_wildcard_skips_chip_id `{SteveVirtuals}
    (_profile : SteveDisplay) (w : World) :
  _chipid _profile = CHIPID_ANY ->
  quiet EarlyInit -> quiet TouchInit ->
  transactions (trace (_hal (snd (Begin _profile w))))
  = transactions (trace (_hal w)) ++ added_transactions (Begin _profile) w /\
  ~ In (Z.lor HOSTCMD_READ REG_CHIP_ID) (added_transactions (Begin _profile) w) /\
  fst (Begin_exit _profile w) <> ExitChipIdMismatch /\
  fst (Begin _profile w) = begin_result (fst (Begin_exit _profile w)).
Proof.
  intros Hchip Hearly Htouch.
  destruct (Begin_exit_wildcard _profile Hchip Hearly Htouch) as [Hq He].
  destruct (Hq w) as [Heq Hn].
  unfold added_transactions in *. unfold Begin. rewrite bind_run.
  unfold ret. cbn [fst snd].
  split; [exact Heq|]. split; [exact Hn|]. split; [apply He | reflexivity].
Qed.

(** An execution that reaches the end of [Begin], in a state in which the
    chip identifier has been read before: [Begin] succeeds and adds no read
    of the chip identifier. *)
Lemma Begin_wildcard_skips_chip_id_witness :
  let w := snd (RegRead32 REG_CHIP_ID (fresh_world (chip_ready_at 21) 0)) in
  reads_address REG_CHIP_ID (trace (_hal w)) /\
  fst (@Begin_exit Steve_base cfa480128profile w) = ExitSuccess /\
  (transactions (trace (_hal (snd (@Begin Steve_base cfa480128profile w))))
   = transactions (trace (_hal w))
     ++ added_transactions (@Begin Steve_base cfa480128profile) w /\
   ~ In (Z.lor HOSTCMD_READ REG_CHIP_ID)
        (added_transactions (@Begin Steve_base cfa480128profile) w) /\
   fst (@Begin_exit Steve_base cfa480128profile w) <> ExitChipIdMismatch /\
   fst (@Begin Steve_base cfa480128profile w)
   = begin_result (fst (@Begin_exit Steve_base cfa480128profile w))).
Proof.
  intros w. split; [|split].
  - unfold reads_address. vm_compute. tauto.
  - vm_compute. reflexivity.
  - apply (@Begin_wildcard_skips_chip_id Steve_base cfa480128profile w).
    + reflexivity.
    + apply quiet_Steve_EarlyInit.
    + apply quiet_Steve_TouchInit.
Defined.

(** For contrast, with the profile of the CFA800480 example, which expects
    a BT817: [Begin] reads the chip identifier, succeeds when the chip
    reports a BT817 and leaves at the identity mismatch when it does not;
    with the wildcard profile and the same chips it succeeds. *)
Lemma Begin_examples :
  reads_address REG_CHIP_ID
    (trace (_hal (snd (@Begin Steve_base cfa800480profile (fresh_world bt817_chip 0))))) /\
  fst (@Begin_exit Steve_base cfa800480profile (fresh_world bt817_chip 0)) = ExitSuccess /\
  fst (@Begin_exit Steve_base cfa800480profile (fresh_world (chip_ready_at 13) 0))
  = ExitChipIdMismatch /\
  fst (@Begin_exit Steve_base cfa480128profile (fresh_world (chip_ready_at 13) 0))
  = ExitSuccess.
Proof.
  split; [|split; [|split]]; try (vm_compute; reflexivity).
  unfold reads_address. vm_compute. tauto.
Qed.

(** * Further properties *)

(** ** Bytes and words *)

Lemma lor_shiftl_add a b n :
  0 <= n -> 0 <= a < 2 ^ n -> Z.lor a (Z.shiftl b n) = a + b * 2 ^ n.
Proof.
  intros Hn Ha.
  assert (Hland : Z.land a (Z.shiftl b n) = 0).
  { apply Z.bits_inj'. intros i Hi.
    rewrite Z.land_spec, Z.bits_0.
    destruct (Z.lt_ge_cases i n) as [Hlt|Hge].
    - rewrite Z.shiftl_spec_low by exact Hlt. apply andb_false_r.
    - rewrite <- (Z.mod_small a (2 ^ n)) by lia.
      rewrite Z.mod_pow2_bits_high by lia. reflexivity. }
  pose proof (Z.add_lor_land a (Z.shiftl b n)) as H.
  rewrite Hland in H. rewrite <- Z.shiftl_mul_pow2 by lia. lia.
Qed.

Lemma split_uint32 v :
  0 <= v < 2 ^ 32 ->
  v mod 256
  + 256 * ((v / 256) mod 256
           + 256 * ((v / 65536) mod 256 + 256 * ((v / 16777216) mod 256 + 256 * 0)))
  = v.
Proof.
  intros Hv. change (2 ^ 32) with 4294967296 in Hv.
  pose proof (Z.div_mod v 256 ltac:(lia)).
  pose proof (Z.mod_pos_bound v 256 ltac:(lia)).
  pose proof (Z.div_mod (v / 256) 256 ltac:(lia)).
  pose proof (Z.mod_pos_bound (v / 256) 256 ltac:(lia)).
  assert (H16 : v / 65536 = v / 256 / 256) by (rewrite Z.div_div by lia; reflexivity).
  assert (H24 : v / 16777216 = v / 256 / 256 / 256)
    by (rewrite !Z.div_div by lia; reflexivity).
  pose proof (Z.div_mod (v / 256 / 256) 256 ltac:(lia)).
  pose proof (Z.mod_pos_bound (v / 256 / 256) 256 ltac:(lia)).
  pose proof (Z.div_mod (v / 256 / 256 / 256) 256 ltac:(lia)).
  pose proof (Z.mod_pos_bound (v / 256 / 256 / 256) 256 ltac:(lia)).
  assert (v / 256 / 256 / 256 / 256 = 0).
  { rewrite !Z.div_div by lia. apply Z.div_small. lia. }
  rewrite H16, H24. lia.
Qed.

Lemma bytes_of_uint32 v :
  0 <= v < 2 ^ 32 ->
  little_endian [to_uint8 v; to_uint8 (Z.shiftr v 8); to_uint8 (Z.shiftr v 16);
                 to_uint8 (Z.shiftr v 24)] = v.
Proof.
  intros Hv. cbn [little_endian]. unfold to_uint8.
  rewrite !Z.shiftr_div_pow2 by lia.
  exact (split_uint32 v Hv).
Qed.

Lemma bytes_of_uint16 v :
  0 <= v < 2 ^ 16 ->
  little_endian [to_uint8 v; to_uint8 (Z.shiftr v 8)] = v.
Proof.
  intros Hv. cbn [little_endian]. unfold to_uint8.
  rewrite !Z.shiftr_div_pow2 by lia.
  change (2 ^ 8) with 256. change (2 ^ 16) with 65536 in Hv.
  pose proof (Z.div_mod v 256 ltac:(lia)).
  pose proof (Z.mod_pos_bound v 256 ltac:(lia)).
  rewrite (Z.mod_small (v / 256)) by (split; [apply Z.div_pos; lia | apply Z.div_lt_upper_bound; lia]).
  lia.
Qed.

Lemma bytes_sent_app {A : Type} (m : St SteveHAL A) h bytes :
  sent (trace (snd (m h))) = sent (trace h) ++ bytes -> bytes_sent m h = bytes.
Proof. intros H. unfold bytes_sent. rewrite H. apply drop_app_length. Qed.

Lemma Send32_sent value h :
  sent (trace (snd (Send32 value h)))
  = sent (trace h)
    ++ [to_uint8 (to_uint32 value); to_uint8 (Z.shiftr (to_uint32 value) 8);
        to_uint8 (Z.shiftr (to_uint32 value) 16);
        to_uint8 (Z.shiftr (to_uint32 value) 24)].
Proof.
  unfold Send32, bind, ret, Transfer. cbn [fst snd trace].
  rewrite !sent_app, <- !app_assoc, !to_uint8_idem. reflexivity.
Qed.

Lemma Send16_sent value h :
  sent (trace (snd (Send16 value h)))
  = sent (trace h)
    ++ [to_uint8 (to_uint16 value); to_uint8 (Z.shiftr (to_uint16 value) 8)].
Proof.
  unfold Send16, bind, ret, Transfer. cbn [fst snd trace].
  rewrite !sent_app, <- !app_assoc, !to_uint8_idem. reflexivity.
Qed.

(** What [Receive16] and [Receive32] return: the chip's answers read as a
    little-endian number. *)
Lemma Receive32_value h : fst (Receive32 h) = little_endian (answers h 4).
Proof.
  unfold Receive32, bind, ret, Transfer, answers. cbn [fst snd chip transfers seq map].
  cbn [little_endian].
  rewrite !Nat.add_0_r.
  replace (transfers h + 1)%nat with (S (transfers h)) by lia.
  replace (transfers h + 2)%nat with (S (S (transfers h))) by lia.
  replace (transfers h + 3)%nat with (S (S (S (transfers h)))) by lia.
  generalize (to_uint8_range (chip h (transfers h))).
  generalize (to_uint8_range (chip h (S (transfers h)))).
  generalize (to_uint8_range (chip h (S (S (transfers h))))).
  generalize (to_uint8_range (chip h (S (S (S (transfers h)))))).
  generalize (to_uint8 (chip h (transfers h))).
  generalize (to_uint8 (chip h (S (transfers h)))).
  generalize (to_uint8 (chip h (S (S (transfers h))))).
  generalize (to_uint8 (chip h (S (S (S (transfers h)))))).
  unfold is_uint8. intros b3 b2 b1 b0 H3 H2 H1 H0.
  rewrite (to_uint32_id b0) by (unfold is_uint32; lia).
  rewrite (lor_shiftl_add b0 b1 8) by lia.
  rewrite (to_uint32_id (b0 + b1 * 2 ^ 8)) by (unfold is_uint32; lia).
  rewrite (lor_shiftl_add _ b2 16) by lia.
  rewrite (to_uint32_id (b0 + b1 * 2 ^ 8 + b2 * 2 ^ 16)) by (unfold is_uint32; lia).
  rewrite (lor_shiftl_add _ b3 24) by lia.
  rewrite to_uint32_id by (unfold is_uint32; lia). lia.
Qed.

Lemma Receive16_value h : fst (Receive16 h) = little_endian (answers h 2).
Proof.
  unfold Receive16, bind, ret, Transfer, answers. cbn [fst snd chip transfers seq map].
  cbn [little_endian].
  rewrite !Nat.add_0_r.
  replace (transfers h + 1)%nat with (S (transfers h)) by lia.
  generalize (to_uint8_range (chip h (transfers h))).
  generalize (to_uint8_range (chip h (S (transfers h)))).
  generalize (to_uint8 (chip h (transfers h))).
  generalize (to_uint8 (chip h (S (transfers h)))).
  unfold is_uint8. intros b1 b0 H1 H0.
  rewrite (to_uint16_id b0) by (unfold is_uint16; lia).
  rewrite (lor_shiftl_add b0 b1 8) by lia.
  rewrite to_uint16_id by (unfold is_uint16; lia). lia.
Qed.

(** X1: A 32-bit value sent with [Send32] and received with [Receive32] comes
    back as the same value: when the chip answers the four transfers of
    [Receive32] with the four bytes [Send32] put on the bus, in the same
    order, [Receive32] returns the value sent, as a [uint32_t]. *)
Theorem Send32_Receive32_round_trip (value : Z) (h h' : SteveHAL) :
  answers h' 4 = bytes_sent (Send32 value) h ->
  fst (Receive32 h') = to_uint32 value.
Proof.
  intros H. rewrite Receive32_value, H.
  rewrite (bytes_sent_app _ _ _ (Send32_sent value h)).
  apply bytes_of_uint32. unfold to_uint32. apply Z.mod_pos_bound. lia.
Qed.

(** X2: A 16-bit value sent with [Send16] and received with [Receive16] comes
    back as the same value: when the chip answers the two transfers of
    [Receive16] with the two bytes [Send16] put on the bus, in the same
    order, [Receive16] returns the value sent, as a [uint16_t]. *)
Theorem Send16_Receive16_round_trip (value : Z) (h h' : SteveHAL) :
  answers h' 2 = bytes_sent (Send16 value) h ->
  fst (Receive16 h') = to_uint16 value.
Proof.
  intros H. rewrite Receive16_value, H.
  rewrite (bytes_sent_app _ _ _ (Send16_sent value h)).
  apply bytes_of_uint16. unfold to_uint16. apply Z.mod_pos_bound. lia.
Qed.

Lemma Send16_Receive16_round_trip_witness :
  fst (Receive16 (fresh_hal (fun n => nth n [0xCD; 0xAB] 0))) = to_uint16 0x1ABCD.
Proof.
  apply (Send16_Receive16_round_trip 0x1ABCD (fresh_hal (fun _ => 0))).
  vm_compute. reflexivity.
Defined.

Lemma Send32_Receive32_round_trip_witness :
  fst (Receive32 (fresh_hal (fun n => nth n [0x78; 0x56; 0x34; 0x12] 0)))
  = to_uint32 0x12345678.
Proof.
  apply (Send32_Receive32_round_trip 0x12345678 (fresh_hal (fun _ => 0))).
  vm_compute. reflexivity.
Defined.

(** ** Padding and buffers *)

Lemma SendAlignmentBytes_loop_pads fuel : forall result h,
  0 <= result -> result + 3 < 2 ^ 32 ->
  (- result) mod 4 <= Z.of_nat fuel ->
  fst (SendAlignmentBytes_loop fuel result h) = result + (- result) mod 4 /\
  sent (trace (snd (SendAlignmentBytes_loop fuel result h)))
  = sent (trace h) ++ repeat 0 (Z.to_nat ((- result) mod 4)) /\
  transfers (snd (SendAlignmentBytes_loop fuel result h))
  = (transfers h + Z.to_nat ((- result) mod 4))%nat.
Proof.
  induction fuel as [|fuel IH]; intros result h Hres Hmax Hfuel;
    cbn [SendAlignmentBytes_loop];
    destruct (Z.eqb_spec (result mod 4) 0) as [Hz|Hnz].
  - assert (Hp : (- result) mod 4 = 0) by (Z.div_mod_to_equations; lia).
    rewrite Hp. unfold ret. cbn [fst snd repeat Z.to_nat].
    rewrite app_nil_r. repeat split; lia.
  - exfalso. Z.div_mod_to_equations. lia.
  - assert (Hp : (- result) mod 4 = 0) by (Z.div_mod_to_equations; lia).
    rewrite Hp. unfold ret. cbn [fst snd repeat Z.to_nat].
    rewrite app_nil_r. repeat split; lia.
  - assert (Hnext : to_uint32 (result + 1) = result + 1)
      by (apply to_uint32_id; unfold is_uint32; lia).
    assert (Hp : (- result) mod 4 = (- (result + 1)) mod 4 + 1)
      by (Z.div_mod_to_equations; lia).
    assert (Hp0 : 0 <= (- (result + 1)) mod 4) by (Z.div_mod_to_equations; lia).
    rewrite bind_run, Hnext.
    destruct (IH (result + 1) (snd (Send8 0 h))) as (H1 & H2 & H3);
      [lia | change (2 ^ 32) with 4294967296 in *; Z.div_mod_to_equations; lia | lia |].
    rewrite H1, H2, H3, Send8_sent, Send8_transfers, Hp.
    rewrite Z2Nat.inj_add by lia.
    rewrite Nat.add_comm. change (Z.to_nat 1) with 1%nat.
    change (to_uint8 0) with 0. cbn [Nat.add repeat].
    rewrite <- app_assoc.
    split; [lia | split; [reflexivity | lia]].
Qed.

(** X3: [SendAlignmentBytes] pads a byte count to the next multiple of 4: it
    sends just the missing zero bytes, none when the count is a multiple of
    4 already, and returns the padded count. *)
Theorem SendAlignmentBytes_pads_with_zeros (num : Z) (h : SteveHAL) :
  0 <= num <= 2 ^ 32 - 4 ->
  let pad := (- num) mod 4 in
  bytes_sent (SendAlignmentBytes num) h = repeat 0 (Z.to_nat pad) /\
  fst (SendAlignmentBytes num h) = num + pad /\
  fst (SendAlignmentBytes num h) mod 4 = 0 /\
  0 <= pad <= 3 /\
  (num mod 4 = 0 -> snd (SendAlignmentBytes num h) = h).
Proof.
  intros Hnum pad. unfold SendAlignmentBytes.
  rewrite (to_uint32_id num) by (unfold is_uint32; lia).
  assert (Hpad : 0 <= pad <= 3) by (subst pad; Z.div_mod_to_equations; lia).
  destruct (SendAlignmentBytes_loop_pads 3 num h) as (H1 & H2 & H3);
    [lia | lia | fold pad; lia |].
  fold pad in H1, H2, H3.
  split; [apply bytes_sent_app, H2|].
  split; [exact H1|]. split; [rewrite H1; subst pad; Z.div_mod_to_equations; lia|].
  split; [exact Hpad|].
  intros Hz. cbn [SendAlignmentBytes_loop].
  apply Z.eqb_eq in Hz. rewrite Hz. reflexivity.
Qed.

Lemma SendAlignmentBytes_pads_with_zeros_witness :
  let h := fresh_hal (fun _ => 0) in
  let pad := (- 13) mod 4 in
  bytes_sent (SendAlignmentBytes 13) h = repeat 0 (Z.to_nat pad) /\
  fst (SendAlignmentBytes 13 h) = 13 + pad /\
  fst (SendAlignmentBytes 13 h) mod 4 = 0 /\
  0 <= pad <= 3 /\
  (13 mod 4 = 0 -> snd (SendAlignmentBytes 13 h) = h).
Proof.
  apply (SendAlignmentBytes_pads_with_zeros 13 (fresh_hal (fun _ => 0))). lia.
Defined.

Lemma SendBuffer_loop_sends data : forall result h,
  0 <= result -> result + Z.of_nat (length data) < 2 ^ 32 ->
  fst (SendBuffer_loop data result h) = result + Z.of_nat (length data) /\
  sent (trace (snd (SendBuffer_loop data result h)))
  = sent (trace h) ++ map to_uint8 data.
Proof.
  induction data as [|b data IH]; intros result h Hres Hmax;
    cbn [SendBuffer_loop length map].
  - unfold ret. cbn [fst snd]. rewrite app_nil_r. split; [lia | reflexivity].
  - rewrite bind_run.
    rewrite (to_uint32_id (result + 1)) by (unfold is_uint32; cbn [length] in Hmax; lia).
    destruct (IH (result + 1) (snd (Send8 b h))) as [H1 H2];
      [lia | cbn [length] in Hmax; lia |].
    rewrite H1, H2, Send8_sent, <- app_assoc.
    split; [cbn [length]; lia | reflexivity].
Qed.

Lemma ReceiveBuffer_loop_answers rounds : forall h,
  fst (ReceiveBuffer_loop rounds h) = answers h rounds /\
  transfers (snd (ReceiveBuffer_loop rounds h)) = (transfers h + rounds)%nat /\
  chip (snd (ReceiveBuffer_loop rounds h)) = chip h.
Proof.
  induction rounds as [|rounds IH]; intros h; cbn [ReceiveBuffer_loop].
  - unfold ret, answers. cbn [fst snd seq map]. repeat split; lia.
  - rewrite !bind_run. unfold ret. cbn [fst snd].
    destruct (IH (snd (Receive8 h))) as (H1 & H2 & H3).
    rewrite H1, H2, H3. unfold Receive8, Transfer, answers.
    cbn [fst snd transfers chip seq map].
    rewrite Nat.add_0_r. split; [|split; [lia | reflexivity]].
    f_equal. rewrite <- seq_shift, map_map.
    apply map_ext. intros i. do 2 f_equal. lia.
Qed.

(** ** Transactions on the bus *)

Lemma wire_intro {A : Type} (m : St World A) w bytes :
  sent (trace (_hal (snd (m w)))) = sent (trace (_hal w)) ++ bytes ->
  wire m w = bytes.
Proof. intros H. unfold wire. rewrite H. apply drop_app_length. Qed.

Lemma wire_elim {A : Type} (m : St World A) w bytes :
  sent (trace (_hal (snd (m w)))) = sent (trace (_hal w)) ++ bytes ->
  sent (trace (_hal (snd (m w)))) = sent (trace (_hal w)) ++ wire m w.
Proof. intros H. rewrite (wire_intro _ _ _ H). exact H. Qed.

Lemma added_transactions_starts {A : Type} word (m : St World A) w :
  starts_transaction word m -> added_transactions m w = [word].
Proof.
  intros H. unfold added_transactions.
  change (transactions (trace (_hal (snd (m w))))) with (words (view (snd (m w)))).
  rewrite H. cbn [words]. apply drop_app_length.
Qed.

Lemma header_word_id d : 0 <= d < 2 ^ 24 -> header_word d = d.
Proof.
  intros Hd. change (2 ^ 24) with 16777216 in Hd.
  unfold header_word, to_uint8. rewrite !Z.shiftr_div_pow2 by lia.
  change (2 ^ 8) with 256. change (2 ^ 16) with 65536.
  pose proof (Z.div_mod d 256 ltac:(lia)).
  pose proof (Z.mod_pos_bound d 256 ltac:(lia)).
  pose proof (Z.div_mod (d / 256) 256 ltac:(lia)).
  pose proof (Z.mod_pos_bound (d / 256) 256 ltac:(lia)).
  assert (H16 : d / 65536 = d / 256 / 256) by (rewrite Z.div_div by lia; reflexivity).
  assert (0 <= d / 256 / 256 < 256).
  { rewrite <- H16. split; [apply Z.div_pos; lia | apply Z.div_lt_upper_bound; lia]. }
  rewrite H16, (Z.mod_small (d / 256 / 256)) by lia. lia.
Qed.

Lemma header_bytes d :
  0 <= d < 2 ^ 24 ->
  [to_uint8 (Z.shiftr d 16); to_uint8 (Z.shiftr d 8); to_uint8 d] = big_endian24 d.
Proof.
  intros Hd. change (2 ^ 24) with 16777216 in Hd.
  unfold big_endian24, to_uint8. rewrite !Z.shiftr_div_pow2 by lia.
  change (2 ^ 8) with 256. change (2 ^ 16) with 65536.
  rewrite (Z.mod_small (d / 65536))
    by (split; [apply Z.div_pos; lia | apply Z.div_lt_upper_bound; lia]).
  reflexivity.
Qed.

Lemma BeginTransaction_sent data24 w :
  sent (trace (_hal (snd (BeginTransaction data24 w))))
  = sent (trace (_hal w))
    ++ [to_uint8 (Z.shiftr data24 16); to_uint8 (Z.shiftr data24 8); to_uint8 data24].
Proof.
  unfold BeginTransaction, EndTransaction, Send8, hal, bind, ret, Select, Transfer.
  cbn [fst snd _hal trace].
  rewrite !sent_app, <- !app_assoc, !to_uint8_idem. cbn [sent flat_map app].
  reflexivity.
Qed.

Lemma memory_word address22 (write : bool) :
  0 <= address22 < 2 ^ 22 ->
  to_uint32 (Z.lor (if write then HOSTCMD_WRITE else HOSTCMD_READ) address22)
  = (if write then HOSTCMD_WRITE else 0) + address22.
Proof.
  intros Ha. change (2 ^ 22) with 4194304 in Ha. destruct write.
  - rewrite Z.lor_comm. change HOSTCMD_WRITE with (Z.shiftl 1 23) at 1.
    rewrite lor_shiftl_add by lia.
    change (1 * 2 ^ 23) with HOSTCMD_WRITE.
    rewrite to_uint32_id by (unfold is_uint32, HOSTCMD_WRITE; lia). lia.
  - change HOSTCMD_READ with 0. rewrite Z.lor_0_l.
    rewrite to_uint32_id by (unfold is_uint32; lia). lia.
Qed.

Lemma BeginMemoryTransaction_sent address22 (write : bool) w :
  sent (trace (_hal (snd (BeginMemoryTransaction address22 write w))))
  = sent (trace (_hal w))
    ++ (let d := to_uint32 (Z.lor (if write then HOSTCMD_WRITE else HOSTCMD_READ) address22) in
        [to_uint8 (Z.shiftr d 16); to_uint8 (Z.shiftr d 8); to_uint8 d])
    ++ (if write then [] else [0]).
Proof.
  unfold BeginMemoryTransaction. rewrite bind_run.
  destruct write; cbn [negb].
  - unfold ret. cbn [snd]. rewrite BeginTransaction_sent, app_nil_r. reflexivity.
  - rewrite hal_run. cbn [snd _hal]. rewrite Send8_sent, BeginTransaction_sent.
    rewrite <- app_assoc. reflexivity.
Qed.

Lemma BeginMemoryTransaction_frame (address22 : Z) (write : bool) (w : World) :
  0 <= address22 < 2 ^ 22 ->
  let word := (if write then HOSTCMD_WRITE else 0) + address22 in
  added_transactions (BeginMemoryTransaction address22 write) w = [word] /\
  wire (BeginMemoryTransaction address22 write) w
  = big_endian24 word ++ (if write then [] else [0]) /\
  word mod 2 ^ 22 = address22 /\
  Z.testbit word 23 = write /\
  selected (_hal (snd (BeginMemoryTransaction address22 write w))) = true.
Proof.
  intros Ha word.
  assert (Hword : 0 <= word < 2 ^ 24)
    by (subst word; destruct write; unfold HOSTCMD_WRITE; lia).
  split; [|split; [|split; [|split]]].
  - apply added_transactions_starts.
    replace word with (header_word (to_uint32 (Z.lor
      (if write then HOSTCMD_WRITE else HOSTCMD_READ) address22))).
    + apply BeginMemoryTransaction_starts.
    + rewrite memory_word by exact Ha. apply header_word_id. exact Hword.
  - apply wire_intro. rewrite BeginMemoryTransaction_sent. cbv zeta.
    rewrite memory_word by exact Ha. fold word.
    rewrite header_bytes by exact Hword. reflexivity.
  - subst word. destruct write.
    + change HOSTCMD_WRITE with (2 * 2 ^ 22).
      rewrite Z.add_comm, Z.mod_add by lia. apply Z.mod_small. exact Ha.
    + apply Z.mod_small. lia.
  - subst word. destruct write.
    + change HOSTCMD_WRITE with (2 ^ 23).
      rewrite Z.add_comm. rewrite <- (Z.mul_1_l (2 ^ 23)).
      rewrite <- lor_shiftl_add by lia.
      rewrite Z.lor_spec, Z.shiftl_spec by lia.
      change (23 - 23) with 0. change (Z.testbit 1 0) with true. apply orb_true_r.
    + rewrite Z.add_0_l. rewrite <- (Z.mod_small address22 (2 ^ 22)) by lia.
      apply Z.mod_pow2_bits_high. lia.
  - unfold BeginMemoryTransaction, BeginTransaction, EndTransaction, Send8, hal,
      bind, ret, Select, Transfer.
    destruct write; reflexivity.
Qed.

(** X4: A memory transaction on a 22-bit address: the chip sees one new
    transaction, whose 24-bit word is the address with bit 23 set for a
    write and clear for a read; the word goes out most significant byte
    first, and a read is followed by one dummy byte. *)
Theorem BeginMemoryTransaction_header (address22 : Z) (write : bool) (w : World) :
  0 <= address22 < 2 ^ 22 ->
  let word := (if write then HOSTCMD_WRITE else 0) + address22 in
  added_transactions (BeginMemoryTransaction address22 write) w = [word] /\
  wire (BeginMemoryTransaction address22 write) w
  = big_endian24 word ++ (if write then [] else [0]) /\
  word mod 2 ^ 22 = address22 /\
  Z.testbit word 23 = write /\
  selected (_hal (snd (BeginMemoryTransaction address22 write w))) = true.
Proof. exact (BeginMemoryTransaction_frame address22 write w). Qed.

Lemma BeginMemoryTransaction_header_witness :
  let w := fresh_world (fun _ => 0) 0 in
  let word := HOSTCMD_WRITE + REG_PCLK in
  added_transactions (BeginMemoryTransaction REG_PCLK true) w = [word] /\
  wire (BeginMemoryTransaction REG_PCLK true) w = big_endian24 word ++ [] /\
  word mod 2 ^ 22 = REG_PCLK /\
  Z.testbit word 23 = true /\
  selected (_hal (snd (BeginMemoryTransaction REG_PCLK true w))) = true.
Proof.
  apply (BeginMemoryTransaction_header REG_PCLK true (fresh_world (fun _ => 0) 0)).
  unfold REG_PCLK. lia.
Defined.

(** X5: An address is not checked: with bit 23 set, the word of a read is the
    word of a write.  Reading a byte at [HOSTCMD_WRITE + a] leaves the
    transport, and all the rest of the state, exactly as writing the
    16-bit value 0 at [a] does. *)
Theorem RegRead8_with_bit23_is_a_write (a : Z) (w : World) :
  0 <= a < 2 ^ 22 ->
  snd (RegRead8 (HOSTCMD_WRITE + a) w) = snd (RegWrite16 a 0 w) /\
  added_transactions (RegRead8 (HOSTCMD_WRITE + a)) w = [HOSTCMD_WRITE + a].
Proof.
  intros Ha.
  assert (Hw : to_uint32 (Z.lor HOSTCMD_READ (HOSTCMD_WRITE + a))
               = to_uint32 (Z.lor HOSTCMD_WRITE a)).
  { change HOSTCMD_READ with 0. rewrite Z.lor_0_l.
    rewrite (memory_word a true Ha). rewrite to_uint32_id; [reflexivity|].
    unfold is_uint32, HOSTCMD_WRITE. change (2 ^ 22) with 4194304 in Ha. lia. }
  split.
  - unfold RegRead8, RegWrite16, BeginMemoryTransaction. cbn [negb].
    rewrite !bind_run. rewrite Hw. unfold ret. cbn [snd].
    generalize (snd (BeginTransaction (to_uint32 (Z.lor HOSTCMD_WRITE a)) w)).
    intros w'. rewrite !hal_run. cbn [snd _hal _dl_index _cmd_index cmdindex_cells
      bool_cells fst].
    generalize (_hal w'). intros h.
    assert (Hh : snd (Receive8 (snd (Send8 0 h))) = snd (Send16 0 h)); [|rewrite Hh; reflexivity].
    unfold Receive8, Send8, Send16, bind, ret, Transfer.
    cbn [fst snd trace selected chip transfers].
    change (to_uint16 0) with 0. change (Z.shiftr 0 8) with 0.
    change (to_uint8 0) with 0. rewrite <- !app_assoc. reflexivity.
  - apply added_transactions_starts. unfold RegRead8. apply starts_then_body.
    + replace (HOSTCMD_WRITE + a) with
        (header_word (to_uint32 (Z.lor HOSTCMD_READ (HOSTCMD_WRITE + a)))) at 1.
      * exact (BeginMemoryTransaction_starts (HOSTCMD_WRITE + a) false).
      * rewrite Hw, (memory_word a true Ha). apply header_word_id.
        unfold HOSTCMD_WRITE. change (2 ^ 22) with 4194304 in Ha. lia.
    + intros []. apply in_body_Receive8.
Qed.

Lemma RegRead8_with_bit23_is_a_write_witness :
  let w := fresh_world (fun _ => 0) 0 in
  snd (RegRead8 (HOSTCMD_WRITE + REG_PCLK) w) = snd (RegWrite16 REG_PCLK 0 w) /\
  added_transactions (RegRead8 (HOSTCMD_WRITE + REG_PCLK)) w = [HOSTCMD_WRITE + REG_PCLK].
Proof.
  apply (RegRead8_with_bit23_is_a_write REG_PCLK (fresh_world (fun _ => 0) 0)).
  unfold REG_PCLK. lia.
Defined.

(** X6: A host command: the command byte, then the parameter byte, then a
    zero byte, as one transaction.  All the values of [enum HOSTCMD] have
    the form [c * 65536]. *)
Theorem HostCommand_bytes (c parameter : Z) (w : World) :
  0 <= c < 256 ->
  wire (HostCommand (c * 65536) parameter) w = [c; to_uint8 parameter; 0] /\
  added_transactions (HostCommand (c * 65536) parameter) w
  = [c * 65536 + to_uint8 parameter * 256].
Proof.
  intros Hc.
  pose proof (to_uint8_range parameter) as Hp. unfold is_uint8 in Hp.
  change (2 ^ 8) with 256 in Hp.
  set (p := to_uint8 parameter) in *.
  assert (Hd : to_uint32 (Z.lor (c * 65536) (Z.shiftl p 8)) = c * 65536 + p * 256).
  { rewrite Z.lor_comm. rewrite Z.shiftl_mul_pow2 by lia.
    change 65536 with (2 ^ 16) at 1. rewrite <- (Z.shiftl_mul_pow2 c 16) by lia.
    rewrite lor_shiftl_add by lia.
    rewrite to_uint32_id by (unfold is_uint32; lia). lia. }
  unfold HostCommand. fold p. rewrite Hd.
  assert (Hr : 0 <= c * 65536 + p * 256 < 2 ^ 24) by lia.
  split.
  - apply wire_intro. rewrite BeginTransaction_sent, (header_bytes _ Hr).
    unfold big_endian24. do 2 f_equal; [|f_equal; [|f_equal]].
    + symmetry. apply Z.div_unique with (r := p * 256); lia.
    + replace ((c * 65536 + p * 256) / 256) with (c * 256 + p)
        by (apply Z.div_unique with (r := 0); lia).
      rewrite Z.add_comm, Z.mod_add by lia. apply Z.mod_small. lia.
    + replace (c * 65536 + p * 256) with (0 + (c * 256 + p) * 256) by lia.
      rewrite Z.mod_add by lia. reflexivity.
  - apply added_transactions_starts.
    rewrite <- (header_word_id _ Hr) at 1. apply BeginTransaction_starts.
Qed.

Lemma HostCommand_bytes_witness :
  let w := fresh_world (fun _ => 0) 0 in
  wire (HostCommand (0x61 * 65536) 0x46) w = [0x61; to_uint8 0x46; 0] /\
  added_transactions (HostCommand (0x61 * 65536) 0x46) w
  = [0x61 * 65536 + to_uint8 0x46 * 256].
Proof.
  apply (HostCommand_bytes 0x61 0x46 (fresh_world (fun _ => 0) 0)). lia.
Defined.

(** ** Blocks of memory *)

Lemma in_body_SendBuffer_loop data : forall result,
  in_body (hal (SendBuffer_loop data result)).
Proof.
  induction data as [|b data IH]; intros result; cbn [SendBuffer_loop].
  - apply in_body_hal_ret.
  - apply in_body_hal_bind; [apply in_body_Send8 | intros _; apply IH].
Qed.

Lemma in_body_ReceiveBuffer_loop rounds : in_body (hal (ReceiveBuffer_loop rounds)).
Proof.
  induction rounds as [|rounds IH]; cbn [ReceiveBuffer_loop].
  - apply in_body_hal_ret.
  - apply in_body_hal_bind; [apply in_body_Receive8 | intros b].
    apply in_body_hal_bind; [exact IH | intros l; apply in_body_hal_ret].
Qed.

Lemma ReceiveBuffer_loop_sent rounds : forall h,
  sent (trace (snd (ReceiveBuffer_loop rounds h)))
  = sent (trace h) ++ repeat 0 rounds.
Proof.
  induction rounds as [|rounds IH]; intros h; cbn [ReceiveBuffer_loop repeat].
  - unfold ret. cbn [snd]. rewrite app_nil_r. reflexivity.
  - rewrite !bind_run. unfold ret. cbn [snd]. rewrite IH.
    unfold Receive8, Transfer. cbn [snd trace]. rewrite sent_app, <- app_assoc.
    reflexivity.
Qed.

Lemma BeginMemoryTransaction_transfers address22 (write : bool) w :
  transfers (_hal (snd (BeginMemoryTransaction address22 write w)))
  = (transfers (_hal w) + (if write then 3 else 4))%nat /\
  chip (_hal (snd (BeginMemoryTransaction address22 write w))) = chip (_hal w).
Proof.
  unfold BeginMemoryTransaction, BeginTransaction, EndTransaction, Send8, hal,
    bind, ret, Select, Transfer.
  destruct write; cbn [negb fst snd _hal transfers chip]; split;
    [lia | reflexivity | lia | reflexivity].
Qed.

(** X7: [RegWriteBuffer] on a 22-bit address: one write transaction at the
    address, whose data are the bytes of the buffer in order; the result
    is the address after the last byte written. *)
Theorem RegWriteBuffer_frame (address22 : Z) (source : list Z) (w : World) :
  0 <= address22 < 2 ^ 22 ->
  Z.of_nat (length source) < 2 ^ 32 - 2 ^ 22 ->
  wire (RegWriteBuffer address22 source) w
  = big_endian24 (HOSTCMD_WRITE + address22) ++ map to_uint8 source /\
  added_transactions (RegWriteBuffer address22 source) w
  = [HOSTCMD_WRITE + address22] /\
  fst (RegWriteBuffer address22 source w)
  = address22 + Z.of_nat (length source).
Proof.
  intros Ha Hlen.
  change (2 ^ 22) with 4194304 in *. change (2 ^ 32) with 4294967296 in *.
  destruct (BeginMemoryTransaction_frame address22 true w Ha)
    as (Hwords & Hwire & _).
  cbv zeta in Hwords, Hwire. rewrite app_nil_r in Hwire.
  pose proof (BeginMemoryTransaction_sent address22 true w) as Hsent.
  apply wire_elim in Hsent. rewrite Hwire in Hsent.
  set (w1 := snd (BeginMemoryTransaction address22 true w)) in *.
  destruct (SendBuffer_loop_sends source 0 (_hal w1)) as [Hn Hs];
    [lia | change (2 ^ 32) with 4294967296; lia |].
  assert (Hrun : RegWriteBuffer address22 source w
                 = (to_uint32 (to_uint32 address22 + fst (SendBuffer source (_hal w1))),
                    snd (hal (SendBuffer source) w1))).
  { unfold RegWriteBuffer. rewrite !bind_run. fold w1. unfold ret.
    rewrite hal_run. reflexivity. }
  split; [|split].
  - apply wire_intro. rewrite Hrun. cbn [snd]. rewrite hal_run. cbn [snd _hal].
    unfold SendBuffer. rewrite Hs, Hsent, <- app_assoc. reflexivity.
  - apply added_transactions_starts. unfold RegWriteBuffer.
    apply starts_then_body.
    + replace (HOSTCMD_WRITE + address22) with
        (header_word (to_uint32 (Z.lor HOSTCMD_WRITE address22))).
      * exact (BeginMemoryTransaction_starts address22 true).
      * rewrite (memory_word address22 true) by (change (2 ^ 22) with 4194304; lia).
        apply header_word_id. unfold HOSTCMD_WRITE.
        change (2 ^ 24) with 16777216. lia.
    + intros []. apply in_body_bind; [|intros n; apply in_body_ret].
      apply in_body_SendBuffer_loop.
  - rewrite Hrun. cbn [fst]. unfold SendBuffer. rewrite Hn.
    rewrite (to_uint32_id address22)
      by (unfold is_uint32; change (2 ^ 32) with 4294967296; lia).
    apply to_uint32_id. unfold is_uint32. change (2 ^ 32) with 4294967296. lia.
Qed.

Lemma RegWriteBuffer_frame_witness :
  let w := fresh_world (fun _ => 0) 0 in
  wire (RegWriteBuffer RAM_CMD [0x11; 0x22; 0x133]) w
  = big_endian24 (HOSTCMD_WRITE + RAM_CMD) ++ map to_uint8 [0x11; 0x22; 0x133] /\
  added_transactions (RegWriteBuffer RAM_CMD [0x11; 0x22; 0x133]) w
  = [HOSTCMD_WRITE + RAM_CMD] /\
  fst (RegWriteBuffer RAM_CMD [0x11; 0x22; 0x133] w)
  = RAM_CMD + Z.of_nat (length [0x11; 0x22; 0x133]).
Proof.
  apply (RegWriteBuffer_frame RAM_CMD [0x11; 0x22; 0x133]
           (fresh_world (fun _ => 0) 0)).
  - unfold RAM_CMD. lia.
  - cbn [length]. lia.
Defined.

(** X8: [RegReadBuffer] on a 22-bit address: one read transaction at the
    address; after the dummy byte, byte [i] of the buffer is the chip's
    answer to the transfer number [i] that follows; the bytes sent
    meanwhile are zero; the result is the address after the last byte
    read. *)
Theorem RegReadBuffer_frame (address22 length : Z) (w : World) :
  0 <= address22 < 2 ^ 22 ->
  0 <= length < 2 ^ 32 - 2 ^ 22 ->
  let n := Z.to_nat length in
  fst (fst (RegReadBuffer address22 length w))
  = map (fun i => to_uint8 (chip (_hal w) (transfers (_hal w) + 4 + i)%nat)) (seq 0 n) /\
  snd (fst (RegReadBuffer address22 length w)) = address22 + length /\
  wire (RegReadBuffer address22 length) w
  = big_endian24 address22 ++ [0] ++ repeat 0 n /\
  added_transactions (RegReadBuffer address22 length) w = [address22].
Proof.
  intros Ha Hlen n.
  change (2 ^ 22) with 4194304 in *. change (2 ^ 32) with 4294967296 in *.
  assert (Ha' : 0 <= address22 < 2 ^ 22) by (change (2 ^ 22) with 4194304; lia).
  destruct (BeginMemoryTransaction_frame address22 false w Ha')
    as (Hwords & Hwire & _).
  cbv zeta in Hwords, Hwire. rewrite Z.add_0_l in Hwords, Hwire.
  pose proof (BeginMemoryTransaction_sent address22 false w) as Hsent.
  apply wire_elim in Hsent. rewrite Hwire in Hsent.
  destruct (BeginMemoryTransaction_transfers address22 false w) as [Ht Hc].
  set (w1 := snd (BeginMemoryTransaction address22 false w)) in *.
  assert (Hl : to_uint32 length = length)
    by (apply to_uint32_id; unfold is_uint32; change (2 ^ 32) with 4294967296; lia).
  assert (Hrun : RegReadBuffer address22 length w
                 = ((fst (ReceiveBuffer_loop n (_hal w1)),
                     to_uint32 (to_uint32 address22 + length)),
                    snd (hal (ReceiveBuffer_loop n) w1))).
  { unfold RegReadBuffer. rewrite !bind_run. fold w1. unfold ret.
    rewrite !hal_run. unfold ReceiveBuffer. rewrite !bind_run. unfold ret.
    rewrite Hl. fold n. reflexivity. }
  destruct (ReceiveBuffer_loop_answers n (_hal w1)) as (Hv & _ & _).
  split; [|split; [|split]].
  - rewrite Hrun. cbn [fst]. rewrite Hv. unfold answers. rewrite Hc, Ht.
    reflexivity.
  - rewrite Hrun. cbn [fst snd].
    rewrite (to_uint32_id address22)
      by (unfold is_uint32; change (2 ^ 32) with 4294967296; lia).
    apply to_uint32_id. unfold is_uint32. change (2 ^ 32) with 4294967296. lia.
  - apply wire_intro. rewrite Hrun. cbn [snd]. rewrite hal_run. cbn [snd _hal].
    rewrite ReceiveBuffer_loop_sent, Hsent, <- !app_assoc. reflexivity.
  - apply added_transactions_starts. unfold RegReadBuffer.
    apply starts_then_body.
    + replace address22 with
        (header_word (to_uint32 (Z.lor HOSTCMD_READ address22))) at 1.
      * exact (BeginMemoryTransaction_starts address22 false).
      * rewrite (memory_word address22 false Ha'). rewrite Z.add_0_l.
        apply header_word_id. change (2 ^ 24) with 16777216. lia.
    + intros []. apply in_body_bind; [|intros r; apply in_body_ret].
      unfold ReceiveBuffer. apply in_body_hal_bind;
        [apply in_body_ReceiveBuffer_loop | intros l; apply in_body_hal_ret].
Qed.

Lemma RegReadBuffer_frame_witness :
  let w := fresh_world (fun i => Z.of_nat i + 0x20) 0 in
  let n := Z.to_nat 3 in
  fst (fst (RegReadBuffer RAM_DL 3 w))
  = map (fun i => to_uint8 (chip (_hal w) (transfers (_hal w) + 4 + i)%nat)) (seq 0 n) /\
  snd (fst (RegReadBuffer RAM_DL 3 w)) = RAM_DL + 3 /\
  wire (RegReadBuffer RAM_DL 3) w = big_endian24 RAM_DL ++ [0] ++ repeat 0 n /\
  added_transactions (RegReadBuffer RAM_DL 3) w = [RAM_DL].
Proof.
  apply (RegReadBuffer_frame RAM_DL 3 (fresh_world (fun i => Z.of_nat i + 0x20) 0)).
  - unfold RAM_DL. lia.
  - lia.
Defined.

(** ** How long [RegWait8] polls *)

Lemma delays_app t1 t2 : delays (t1 ++ t2) = delays t1 ++ delays t2.
Proof. unfold delays. apply flat_map_app. Qed.

Lemma RegRead8_delays address22 w :
  delays (trace (_hal (snd (RegRead8 address22 w)))) = delays (trace (_hal w)).
Proof.
  unfold RegRead8, BeginMemoryTransaction, BeginTransaction, EndTransaction,
    Receive8, Send8, hal, bind, ret, Select, Transfer.
  cbn [negb fst snd _hal trace].
  rewrite !delays_app. cbn [delays flat_map app]. rewrite !app_nil_r. reflexivity.
Qed.

Lemma Delay_effect ms w :
  transfers (_hal (snd (hal (Delay ms) w))) = transfers (_hal w) /\
  delays (trace (_hal (snd (hal (Delay ms) w)))) = delays (trace (_hal w)) ++ [ms].
Proof.
  rewrite hal_run. unfold Delay, modify, log. cbn [snd _hal transfers trace].
  rewrite delays_app. split; reflexivity.
Qed.

Lemma RegWait8_loop_match address22 value delay : forall n w j,
  (j < n)%nat ->
  (forall i, (i < j)%nat -> polled w i <> value) ->
  polled w j = value ->
  emitted w (snd (RegWait8_loop address22 value delay n w)) = 5 * (Z.of_nat j + 1) /\
  delays (trace (_hal (snd (RegWait8_loop address22 value delay n w))))
  = delays (trace (_hal w)) ++ repeat delay j.
Proof.
  induction n as [|n IH]; intros w j Hj Hbefore Hat; [lia|].
  cbn [RegWait8_loop]. rewrite bind_run.
  destruct (RegRead8_effect address22 w) as (Hr & Ht & _). rewrite Hr.
  pose proof (RegRead8_delays address22 w) as Hd.
  destruct j as [|j].
  - rewrite Hat, Z.eqb_refl. unfold ret, emitted. cbn [snd repeat].
    rewrite Ht, Hd, app_nil_r. split; [lia | reflexivity].
  - destruct (Z.eqb_spec (polled w 0) value) as [Heq|Hne].
    + exfalso. apply (Hbefore O); [lia | exact Heq].
    + rewrite bind_run.
      destruct (Delay_effect delay (snd (RegRead8 address22 w))) as [Ht' Hd'].
      destruct (IH (snd (hal (Delay delay) (snd (RegRead8 address22 w)))) j)
        as [He Hds].
      * lia.
      * intros i Hi. rewrite polled_after_poll. apply Hbefore. lia.
      * rewrite polled_after_poll. exact Hat.
      * unfold emitted in *. rewrite Ht', Ht in He. rewrite Hds, Hd', Hd.
        split; [lia|]. rewrite <- app_assoc. reflexivity.
Qed.

Lemma RegWait8_loop_no_match address22 value delay : forall n w,
  (forall i, (i < n)%nat -> polled w i <> value) ->
  fst (RegWait8_loop address22 value delay n w) = 0 /\
  emitted w (snd (RegWait8_loop address22 value delay n w)) = 5 * Z.of_nat n /\
  delays (trace (_hal (snd (RegWait8_loop address22 value delay n w))))
  = delays (trace (_hal w)) ++ repeat delay n.
Proof.
  induction n as [|n IH]; intros w Hno; cbn [RegWait8_loop].
  - unfold ret, emitted. cbn [fst snd repeat]. rewrite app_nil_r.
    split; [reflexivity | split; [lia | reflexivity]].
  - rewrite bind_run.
    destruct (RegRead8_effect address22 w) as (Hr & Ht & _). rewrite Hr.
    pose proof (RegRead8_delays address22 w) as Hd.
    destruct (Z.eqb_spec (polled w 0) value) as [Heq|Hne].
    + exfalso. apply (Hno O); [lia | exact Heq].
    + rewrite bind_run.
      destruct (Delay_effect delay (snd (RegRead8 address22 w))) as [Ht' Hd'].
      destruct (IH (snd (hal (Delay delay) (snd (RegRead8 address22 w)))))
        as (Hf & He & Hds).
      * intros i Hi. rewrite polled_after_poll. apply Hno. lia.
      * unfold emitted in *. rewrite Ht', Ht in He. rewrite Hds, Hd', Hd.
        split; [exact Hf|]. split; [lia|].
        rewrite <- app_assoc. reflexivity.
Qed.

(** X9: [RegWait8] stops polling at the first poll that reads the expected
    value: when that is poll number [j] (counted from 0) of the tries
    allowed, it has read the register [j + 1] times, five bus transfers
    each, has waited [delay_between_tries] after each of the [j] failed
    polls, and returns the number of tries left. *)
Theorem RegWait8_stops_at_first_match
    (address22 value maxtries delay_between_tries : Z) (w : World) (j : nat) :
  (j < Z.to_nat (to_uint8 maxtries))%nat ->
  (forall i, (i < j)%nat -> polled w i <> to_uint8 value) ->
  polled w j = to_uint8 value ->
  let r := RegWait8 address22 value maxtries delay_between_tries w in
  fst r = to_uint8 maxtries - 1 - Z.of_nat j /\
  emitted w (snd r) = 5 * (Z.of_nat j + 1) /\
  delays (trace (_hal (snd r)))
  = delays (trace (_hal w)) ++ repeat delay_between_tries j.
Proof.
  intros Hj Hbefore Hat r. subst r. unfold RegWait8.
  split.
  - rewrite (RegWait8_loop_value _ _ _ _ _ j Hj Hbefore Hat).
    pose proof (to_uint8_range maxtries) as Hm. unfold is_uint8 in Hm. lia.
  - apply RegWait8_loop_match; assumption.
Qed.

Lemma RegWait8_stops_at_first_match_witness :
  let w := fresh_world (chip_ready_at 14) 0 in
  let r := RegWait8 REG_ID 0x7C 250 1 w in
  fst r = to_uint8 250 - 1 - Z.of_nat 2 /\
  emitted w (snd r) = 5 * (Z.of_nat 2 + 1) /\
  delays (trace (_hal (snd r))) = delays (trace (_hal w)) ++ repeat 1 2.
Proof.
  apply (RegWait8_stops_at_first_match REG_ID 0x7C 250 1
           (fresh_world (chip_ready_at 14) 0) 2).
  - vm_compute. lia.
  - intros i Hi. destruct i as [|[|i]]; [vm_compute; discriminate ..|lia].
  - reflexivity.
Defined.

(** X10: [RegWait8] gives up after the tries allowed: when none of them reads
    the expected value it returns 0 after exactly that many polls, and it
    has waited after each of them, the last one included.  The number of
    tries is a [uint8_t]: with 0 (or 256) nothing is read at all. *)
Theorem RegWait8_gives_up
    (address22 value maxtries delay_between_tries : Z) (w : World) :
  let n := Z.to_nat (to_uint8 maxtries) in
  (forall i, (i < n)%nat -> polled w i <> to_uint8 value) ->
  let r := RegWait8 address22 value maxtries delay_between_tries w in
  fst r = 0 /\
  emitted w (snd r) = 5 * Z.of_nat n /\
  delays (trace (_hal (snd r)))
  = delays (trace (_hal w)) ++ repeat delay_between_tries n.
Proof.
  intros n Hno r. subst r. unfold RegWait8. fold n.
  apply RegWait8_loop_no_match. exact Hno.
Qed.

Lemma RegWait8_gives_up_witness :
  let w := fresh_world (fun _ => 0) 0 in
  let n := Z.to_nat (to_uint8 3) in
  let r := RegWait8 REG_ID 0x7C 3 1 w in
  fst r = 0 /\
  emitted w (snd r) = 5 * Z.of_nat n /\
  delays (trace (_hal (snd r))) = delays (trace (_hal w)) ++ repeat 1 n.
Proof.
  apply (RegWait8_gives_up REG_ID 0x7C 3 1 (fresh_world (fun _ => 0) 0)).
  intros i _. vm_compute. discriminate.
Defined.

(** ** The write index of the command queue *)

Lemma Cmd_emitted command w : emitted w (snd (Cmd command w)) = 7.
Proof.
  destruct (Cmd_effect command w) as [H _]. cbv zeta in H.
  destruct (BeginMemoryTransaction_transfers (RAM_CMD + index (_cmd_index w)) true w)
    as [Ht _].
  unfold emitted in *. lia.
Qed.

(** X11: A co-processor command keeps the write index in step with the bus:
    whatever its parameters, the index it returns is the stored write
    index, it lies inside the command buffer, and it is the index on
    entry plus the number of data bytes put on the bus (all the bytes
    after the three of the transaction word), modulo the buffer size. *)
Theorem CMD_index_tracks_bytes
    (abi : int_model) (enc_cmd : Z) (ps : list cmd_param) (w : World) :
  fst (CMD abi enc_cmd ps w) = _cmd_index (snd (CMD abi enc_cmd ps w)) /\
  index (_cmd_index (snd (CMD abi enc_cmd ps w)))
  = (index (_cmd_index w) + (emitted w (snd (CMD abi enc_cmd ps w)) - 3))
    mod RAM_CMD_SIZE /\
  0 <= index (_cmd_index (snd (CMD abi enc_cmd ps w))) < RAM_CMD_SIZE.
Proof.
  unfold CMD. rewrite !bind_run. unfold get, ret, set_cmd_index, modify.
  cbn [fst snd _cmd_index].
  set (w1 := snd (Cmd enc_cmd w)).
  destruct (cmd_params_run_counts abi ps 0 w1) as [Hc Hi].
  set (r := cmd_params_run abi ps 0 w1) in *.
  assert (Hidx : _index (Index_add_assign RAM_CMD_SIZE (_cmd_index (snd r)) (fst r))
                 = (_index (_cmd_index w) + 4 + fst r) mod RAM_CMD_SIZE).
  { rewrite Hi. unfold w1. rewrite Cmd_cmd_index.
    change RAM_CMD_SIZE with (2 ^ 12).
    rewrite !Index_add_assign_mod by lia. apply Zplus_mod_idemp_l. }
  split; [reflexivity|].
  unfold index. rewrite Hidx.
  split; [|apply Z.mod_pos_bound; reflexivity].
  unfold emitted. cbn [_hal].
  pose proof (Cmd_emitted enc_cmd w) as H7. fold w1 in H7.
  unfold emitted in H7, Hc. rewrite Z.add_0_l in Hc.
  rewrite Zplus_mod, Hc, <- Zplus_mod.
  f_equal. lia.
Qed.

Lemma cmd_param_run_mod4 abi p result w :
  fst (cmd_param_run abi p result w) mod 4
  = (result + 2 * Z.of_nat (count_V2 [p])) mod 4.
Proof.
  change 4 with (2 ^ 2).
  destruct p as [value|value|value maxlen|value|name];
    cbn [cmd_param_run count_V2]; rewrite !bind_run; unfold ret; cbn [fst snd];
    rewrite to_int16_mod by lia.
  - reflexivity.
  - rewrite Z.add_0_r. change (2 ^ 2) with 4.
    rewrite <- (Z.mul_1_l 4) at 1. apply Z.mod_add. lia.
  - rewrite hal_run. cbn [fst snd _hal]. rewrite hal_run. cbn [fst].
    rewrite Z.add_0_r, Zplus_mod. change (2 ^ 2) with 4.
    rewrite SendAlignmentBytes_aligned, Z.add_0_r. apply Z.mod_mod. lia.
  - rewrite hal_run. cbn [fst snd _hal]. rewrite hal_run. cbn [fst].
    rewrite Z.add_0_r, Zplus_mod. change (2 ^ 2) with 4.
    rewrite SendAlignmentBytes_aligned, Z.add_0_r. apply Z.mod_mod. lia.
  - rewrite Z.add_0_r. change (2 ^ 2) with 4.
    rewrite <- (Z.mul_1_l 4) at 1. apply Z.mod_add. lia.
Qed.

Lemma cmd_params_run_mod4 abi ps : forall result w,
  fst (cmd_params_run abi ps result w) mod 4
  = (result + 2 * Z.of_nat (count_V2 ps)) mod 4.
Proof.
  induction ps as [|p ps IH]; intros result w; cbn [cmd_params_run].
  - unfold ret. cbn [fst count_V2]. f_equal. lia.
  - rewrite bind_run, IH.
    rewrite Zplus_mod, cmd_param_run_mod4, <- Zplus_mod.
    f_equal. destruct p; cbn [count_V2]; lia.
Qed.

Lemma CMD_index_mod4
    (abi : int_model) (enc_cmd : Z) (ps : list cmd_param) (w : World) :
  index (_cmd_index (snd (CMD abi enc_cmd ps w))) mod 4
  = (index (_cmd_index w) + 2 * Z.of_nat (count_V2 ps)) mod 4.
Proof.
  unfold CMD. rewrite !bind_run. unfold get, ret, set_cmd_index, modify.
  cbn [fst snd _cmd_index].
  set (w1 := snd (Cmd enc_cmd w)).
  destruct (cmd_params_run_counts abi ps 0 w1) as [_ Hi].
  pose proof (cmd_params_run_mod4 abi ps 0 w1) as Hr.
  set (r := cmd_params_run abi ps 0 w1) in *.
  assert (Hidx : _index (Index_add_assign RAM_CMD_SIZE (_cmd_index (snd r)) (fst r))
                 = (_index (_cmd_index w) + 4 + fst r) mod RAM_CMD_SIZE).
  { rewrite Hi. unfold w1. rewrite Cmd_cmd_index.
    change RAM_CMD_SIZE with (2 ^ 12).
    rewrite !Index_add_assign_mod by lia. apply Zplus_mod_idemp_l. }
  unfold index. rewrite Hidx.
  pose proof (mod_pow2_mod_pow2 (_index (_cmd_index w) + 4 + fst r) 2 12
                ltac:(lia)) as Hm.
  change (2 ^ 12) with RAM_CMD_SIZE in Hm. change (2 ^ 2) with 4 in Hm.
  rewrite Hm.
  rewrite Zplus_mod, Hr, <- Zplus_mod. rewrite Z.add_0_l.
  replace (_index (_cmd_index w) + 4 + 2 * Z.of_nat (count_V2 ps))
    with (_index (_cmd_index w) + 2 * Z.of_nat (count_V2 ps) + 1 * 4) by lia.
  apply Z.mod_add. lia.
Qed.

(** X12: Alignment of the write index: every parameter but the two-byte one
    advances it by a multiple of 4, so a command moves the index, modulo
    4, by twice the number of its two-byte parameters. *)
Theorem CMD_alignment
    (abi : int_model) (enc_cmd : Z) (ps : list cmd_param) (w : World) :
  index (_cmd_index (snd (CMD abi enc_cmd ps w))) mod 4
  = (index (_cmd_index w) + 2 * Z.of_nat (count_V2 ps)) mod 4.
Proof. exact (CMD_index_mod4 abi enc_cmd ps w). Qed.

(** X13: [cmd_KEYS] sends five two-byte parameters where [cmd_BUTTON] and
    [cmd_TEXT] send six and four: from a write index that is a multiple of
    4, [cmd_BUTTON] and [cmd_TEXT] lead to a multiple of 4 again, and
    [cmd_KEYS] to a multiple of 4 plus 2; its argument [font5] has no
    effect. *)
Theorem cmd_KEYS_leaves_index_unaligned
    (abi : int_model) (x16 y16 w16 h16 font5 options : Z)
    (message : option (list Z)) (len : Z) (w : World) :
  index (_cmd_index w) mod 4 = 0 ->
  index (_cmd_index (snd (cmd_KEYS abi x16 y16 w16 h16 font5 options message len w)))
    mod 4 = 2 /\
  index (_cmd_index (snd (cmd_BUTTON abi x16 y16 w16 h16 font5 options message len w)))
    mod 4 = 0 /\
  index (_cmd_index (snd (cmd_TEXT abi x16 y16 font5 options message len w)))
    mod 4 = 0 /\
  (forall font5',
     cmd_KEYS abi x16 y16 w16 h16 font5' options message len w
     = cmd_KEYS abi x16 y16 w16 h16 font5 options message len w).
Proof.
  intros Ha. unfold cmd_KEYS, cmd_BUTTON, cmd_TEXT.
  rewrite !CMD_index_mod4. cbn [count_V2].
  rewrite !(Zplus_mod (index (_cmd_index w))), Ha.
  split; [reflexivity|]. split; [reflexivity|]. split; reflexivity.
Qed.

Lemma cmd_KEYS_leaves_index_unaligned_witness :
  let w := fresh_world (fun _ => 0) 8 in
  index (_cmd_index (snd (cmd_KEYS Int32 10 20 200 40 26 0 (Some [49; 50; 51]) 0 w)))
    mod 4 = 2 /\
  index (_cmd_index (snd (cmd_BUTTON Int32 10 20 200 40 26 0 (Some [49; 50; 51]) 0 w)))
    mod 4 = 0 /\
  index (_cmd_index (snd (cmd_TEXT Int32 10 20 26 0 (Some [49; 50; 51]) 0 w)))
    mod 4 = 0 /\
  (forall font5',
     cmd_KEYS Int32 10 20 200 40 font5' 0 (Some [49; 50; 51]) 0 w
     = cmd_KEYS Int32 10 20 200 40 26 0 (Some [49; 50; 51]) 0 w).
Proof.
  apply (cmd_KEYS_leaves_index_unaligned Int32 10 20 200 40 26 0
           (Some [49; 50; 51]) 0 (fresh_world (fun _ => 0) 8)).
  reflexivity.
Defined.

(** ** The wrapping index, continued *)

Lemma Index_eq (i j : Index) : _index i = _index j -> i = j.
Proof. destruct i as [a], j as [b]. cbn [_index]. intros ->. reflexivity. Qed.

(** X14: For an index inside its range, subtracting what was added, or adding
    what was subtracted, gives the index back, whatever the value and
    however often the sum wrapped. *)
Theorem Index_add_sub_inverse (k : Z) (i : Index) (value : Z) :
  0 <= k <= 15 -> 0 <= _index i < 2 ^ k ->
  Index_sub (2 ^ k) (Index_add (2 ^ k) i value) value = i /\
  Index_add (2 ^ k) (Index_sub (2 ^ k) i value) value = i.
Proof.
  intros Hk Hi. split; apply Index_eq.
  - rewrite Index_sub_mod, Index_add_mod by exact Hk.
    rewrite Zminus_mod_idemp_l.
    replace (_index i + value - value) with (_index i) by lia.
    apply Z.mod_small. exact Hi.
  - rewrite Index_add_mod, Index_sub_mod by exact Hk.
    rewrite Zplus_mod_idemp_l.
    replace (_index i - value + value) with (_index i) by lia.
    apply Z.mod_small. exact Hi.
Qed.

Lemma Index_add_sub_inverse_witness :
  Index_sub (2 ^ 12) (Index_add (2 ^ 12) {| _index := 4092 |} 32767) 32767
  = {| _index := 4092 |} /\
  Index_add (2 ^ 12) (Index_sub (2 ^ 12) {| _index := 4092 |} 32767) 32767
  = {| _index := 4092 |}.
Proof.
  apply (Index_add_sub_inverse 12 {| _index := 4092 |} 32767).
  - lia.
  - cbn [_index]. lia.
Defined.

(** ** Bit fields of the display-list words *)

Lemma ENC_field_value (value leftbit rightbit : Z) :
  0 <= rightbit <= leftbit -> leftbit <= 31 -> leftbit - rightbit + 1 <= 30 ->
  ENC_field value leftbit rightbit
  = (value mod 2 ^ (leftbit - rightbit + 1)) * 2 ^ rightbit.
Proof.
  intros Hr Hl Hw. unfold ENC_field.
  set (width := leftbit - rightbit + 1) in *.
  assert (Hwidth : 1 <= width <= 30) by (subst width; lia).
  rewrite Z.shiftl_1_l.
  assert (Hp : 2 ^ width <= 2 ^ 30) by (apply Z.pow_le_mono_r; lia).
  assert (Hp0 : 0 < 2 ^ width) by (apply Z.pow_pos_nonneg; lia).
  change (2 ^ 30) with 1073741824 in Hp.
  rewrite (to_uint32_id (2 ^ width - 1))
    by (unfold is_uint32; change (2 ^ 32) with 4294967296; lia).
  replace (2 ^ width - 1) with (Z.ones width) by (rewrite Z.ones_equiv; lia).
  rewrite Z.land_ones by lia.
  unfold to_uint32 at 2.
  rewrite (mod_pow2_mod_pow2 value width 32) by lia.
  rewrite Z.shiftl_mul_pow2 by lia.
  apply to_uint32_id. unfold is_uint32.
  pose proof (Z.mod_pos_bound value (2 ^ width) Hp0) as Hm.
  assert (Hpr : 0 < 2 ^ rightbit) by (apply Z.pow_pos_nonneg; lia).
  split; [nia|].
  apply Z.lt_le_trans with (2 ^ width * 2 ^ rightbit); [nia|].
  rewrite <- Z.pow_add_r by lia. apply Z.pow_le_mono_r; subst width; lia.
Qed.



(** ** Colours *)

Lemma RGB_value r g b :
  RGB r g b = to_uint8 r * 65536 + to_uint8 g * 256 + to_uint8 b.
Proof.
  unfold RGB.
  pose proof (to_uint8_range r) as Hr. pose proof (to_uint8_range g) as Hg.
  pose proof (to_uint8_range b) as Hb. unfold is_uint8 in *.
  change (2 ^ 8) with 256 in *.
  generalize dependent (to_uint8 r). generalize dependent (to_uint8 g).
  generalize dependent (to_uint8 b). intros b8 Hb g8 Hg r8 Hr.
  rewrite (to_uint32_id r8), (to_uint32_id g8), (to_uint32_id b8)
    by (unfold is_uint32; change (2 ^ 32) with 4294967296; lia).
  rewrite !Z.shiftl_mul_pow2 by lia.
  change (2 ^ 16) with 65536. change (2 ^ 8) with 256.
  rewrite (to_uint32_id (r8 * 65536)), (to_uint32_id (g8 * 256))
    by (unfold is_uint32; change (2 ^ 32) with 4294967296; lia).
  rewrite (Z.lor_comm (r8 * 65536)).
  change 65536 with (2 ^ 16). rewrite <- (Z.shiftl_mul_pow2 r8 16) by lia.
  rewrite lor_shiftl_add by (change (2 ^ 16) with 65536; lia).
  rewrite (Z.lor_comm _ b8).
  replace (g8 * 256 + r8 * 2 ^ 16) with ((g8 + r8 * 256) * 2 ^ 8)
    by (change (2 ^ 16) with 65536; change (2 ^ 8) with 256; lia).
  rewrite <- (Z.shiftl_mul_pow2 _ 8) by lia.
  rewrite lor_shiftl_add by (change (2 ^ 8) with 256; lia).
  change (2 ^ 8) with 256.
  rewrite to_uint32_id by (unfold is_uint32; change (2 ^ 32) with 4294967296; lia).
  rewrite Z.shiftl_mul_pow2 by lia. change (2 ^ 16) with 65536. lia.
Qed.

Lemma ENC_COLOR_RGB_value red8 green8 blue8 :
  ENC_COLOR_RGB red8 green8 blue8
  = ENC_CMD_COLOR + (to_uint8 red8 * 65536 + to_uint8 green8 * 256 + to_uint8 blue8).
Proof.
  unfold ENC_COLOR_RGB.
  pose proof (to_uint8_range red8) as Hr. pose proof (to_uint8_range green8) as Hg.
  pose proof (to_uint8_range blue8) as Hb. unfold is_uint8 in *.
  change (2 ^ 8) with 256 in *.
  rewrite !ENC_field_value by lia.
  change (23 - 16 + 1) with 8. change (15 - 8 + 1) with 8. change (7 - 0 + 1) with 8.
  change (2 ^ 8) with 256. change (2 ^ 16) with 65536. change (2 ^ 0) with 1.
  rewrite !Z.mod_small by lia.
  generalize dependent (to_uint8 red8). generalize dependent (to_uint8 green8).
  generalize dependent (to_uint8 blue8). intros b8 Hb g8 Hg r8 Hr.
  rewrite Z.mul_1_r.
  rewrite <- !Z.lor_assoc.
  assert (Hlow : Z.lor (r8 * 65536) (Z.lor (g8 * 256) b8)
                 = r8 * 65536 + g8 * 256 + b8).
  { rewrite (Z.lor_comm (g8 * 256)).
    change 256 with (2 ^ 8) at 1. rewrite <- (Z.shiftl_mul_pow2 g8 8) by lia.
    rewrite lor_shiftl_add by (change (2 ^ 8) with 256; lia).
    rewrite Z.lor_comm.
    change 65536 with (2 ^ 16) at 1. rewrite <- (Z.shiftl_mul_pow2 r8 16) by lia.
    rewrite lor_shiftl_add
      by (change (2 ^ 8) with 256; change (2 ^ 16) with 65536; lia).
    change (2 ^ 8) with 256. change (2 ^ 16) with 65536. lia. }
  rewrite Hlow. rewrite Z.lor_comm.
  change ENC_CMD_COLOR_RGB with (Z.shiftl 4 24). change ENC_CMD_COLOR with (4 * 2 ^ 24).
  rewrite lor_shiftl_add by (change (2 ^ 24) with 16777216; lia). lia.
Qed.

Lemma ENC_COLOR_value rgb24 :
  ENC_COLOR rgb24 = ENC_CMD_COLOR + rgb24 mod 2 ^ 24.
Proof.
  unfold ENC_COLOR. rewrite ENC_field_value by lia.
  change (23 - 0 + 1) with 24. change (2 ^ 0) with 1. rewrite Z.mul_1_r.
  unfold to_uint32. rewrite (mod_pow2_mod_pow2 rgb24 24 32) by lia.
  pose proof (Z.mod_pos_bound rgb24 (2 ^ 24) ltac:(lia)) as Hm.
  rewrite Z.lor_comm. change ENC_CMD_COLOR with (Z.shiftl 4 24) at 1.
  rewrite lor_shiftl_add by lia. unfold ENC_CMD_COLOR. lia.
Qed.

(** X16: The two overloads of [CmdColor] agree: setting the colour by its
    three components does exactly what setting it by the 24-bit value
    [RGB] makes of them does; and [RGB] can be taken apart again. *)
Theorem CmdColor_overloads_agree (red green blue : Z) (w : World) :
  CmdColor red green blue w = CmdColor_rgb24 (RGB red green blue) w /\
  RGB red green blue / 65536 = to_uint8 red /\
  (RGB red green blue / 256) mod 256 = to_uint8 green /\
  RGB red green blue mod 256 = to_uint8 blue.
Proof.
  pose proof (to_uint8_range red) as Hr. pose proof (to_uint8_range green) as Hg.
  pose proof (to_uint8_range blue) as Hb. unfold is_uint8 in *.
  change (2 ^ 8) with 256 in *.
  split.
  - unfold CmdColor, CmdColor_rgb24, cmd_COLOR_RGB, cmd_COLOR.
    rewrite ENC_COLOR_RGB_value, ENC_COLOR_value, RGB_value.
    rewrite Z.mod_small by (change (2 ^ 24) with 16777216; lia).
    reflexivity.
  - rewrite RGB_value.
    generalize dependent (to_uint8 red). generalize dependent (to_uint8 green).
    generalize dependent (to_uint8 blue). intros b8 Hb g8 Hg r8 Hr.
    split; [|split].
    + symmetry. apply Z.div_unique with (r := g8 * 256 + b8); lia.
    + replace ((r8 * 65536 + g8 * 256 + b8) / 256) with (r8 * 256 + g8)
        by (apply Z.div_unique with (r := b8); lia).
      rewrite Z.add_comm, Z.mod_add by lia. apply Z.mod_small. lia.
    + replace (r8 * 65536 + g8 * 256 + b8) with (b8 + (r8 * 256 + g8) * 256) by lia.
      rewrite Z.mod_add by lia. apply Z.mod_small. lia.
Qed.

(** ** Where the display list and the command queue are written *)

Lemma RegWrite32_frame address22 value w :
  0 <= address22 < 2 ^ 22 ->
  wire (RegWrite32 address22 value) w
  = big_endian24 (HOSTCMD_WRITE + address22)
    ++ [to_uint8 (to_uint32 value); to_uint8 (Z.shiftr (to_uint32 value) 8);
        to_uint8 (Z.shiftr (to_uint32 value) 16);
        to_uint8 (Z.shiftr (to_uint32 value) 24)] /\
  added_transactions (RegWrite32 address22 value) w = [HOSTCMD_WRITE + address22].
Proof.
  intros Ha.
  destruct (BeginMemoryTransaction_frame address22 true w Ha) as (_ & Hwire & _).
  cbv zeta in Hwire. rewrite app_nil_r in Hwire.
  pose proof (BeginMemoryTransaction_sent address22 true w) as Hsent.
  apply wire_elim in Hsent. rewrite Hwire in Hsent.
  split.
  - apply wire_intro. unfold RegWrite32. rewrite bind_run, hal_run.
    cbn [snd _hal]. rewrite Send32_sent, Hsent, <- app_assoc. reflexivity.
  - apply added_transactions_starts. unfold RegWrite32. apply starts_then_body.
    + replace (HOSTCMD_WRITE + address22) with
        (header_word (to_uint32 (Z.lor HOSTCMD_WRITE address22))).
      * exact (BeginMemoryTransaction_starts address22 true).
      * rewrite (memory_word address22 true Ha).
        apply header_word_id. unfold HOSTCMD_WRITE.
        change (2 ^ 22) with 4194304 in Ha. change (2 ^ 24) with 16777216. lia.
    + intros []. apply in_body_Send32.
Qed.

Lemma Cmd_hal command w :
  _hal (snd (Cmd command w))
  = _hal (snd (RegWrite32 (RAM_CMD + index (_cmd_index w)) command w)).
Proof.
  unfold Cmd, RegWrite32. rewrite !bind_run. unfold get, ret, set_cmd_index, modify.
  cbn [fst snd _hal]. reflexivity.
Qed.

Lemma DLAdd_hal value w :
  _hal (snd (DLAdd value w))
  = _hal (snd (RegWrite32 (RAM_DL + index (_dl_index w)) value w)).
Proof.
  unfold DLAdd. rewrite !bind_run. unfold get, ret, set_dl_index, modify.
  cbn [fst snd _hal]. reflexivity.
Qed.

Lemma write32_frame {A : Type} (m : St World A) address22 value w :
  0 <= address22 < 2 ^ 22 ->
  _hal (snd (m w)) = _hal (snd (RegWrite32 address22 value w)) ->
  added_transactions m w = [HOSTCMD_WRITE + address22] /\
  take 3 (wire m w) = big_endian24 (HOSTCMD_WRITE + address22) /\
  little_endian (drop 3 (wire m w)) = to_uint32 value /\
  length (wire m w) = 7%nat.
Proof.
  intros Ha Hhal.
  destruct (RegWrite32_frame address22 value w Ha) as [Hwire Hwords].
  assert (Hw : wire m w = wire (RegWrite32 address22 value) w)
    by (unfold wire; rewrite Hhal; reflexivity).
  assert (Ht : added_transactions m w
               = added_transactions (RegWrite32 address22 value) w)
    by (unfold added_transactions; rewrite Hhal; reflexivity).
  rewrite Ht, Hw, Hwire. unfold big_endian24.
  split; [exact Hwords|]. split; [reflexivity|]. split; [|reflexivity].
  cbn [app drop]. apply bytes_of_uint32.
  unfold to_uint32. apply Z.mod_pos_bound. lia.
Qed.

(** X17: [Cmd], with the write index inside the command buffer: one write
    transaction, addressed inside the buffer at the write index, carrying
    the four bytes of the command word, least significant first; the
    write index moves on by 4 and wraps at the end of the buffer. *)
Theorem Cmd_frame (command : Z) (w : World) :
  0 <= index (_cmd_index w) < RAM_CMD_SIZE ->
  let address := RAM_CMD + index (_cmd_index w) in
  RAM_CMD <= address < RAM_CMD + RAM_CMD_SIZE /\
  added_transactions (Cmd command) w = [HOSTCMD_WRITE + address] /\
  take 3 (wire (Cmd command) w) = big_endian24 (HOSTCMD_WRITE + address) /\
  little_endian (drop 3 (wire (Cmd command) w)) = to_uint32 command /\
  length (wire (Cmd command) w) = 7%nat /\
  index (fst (Cmd command w)) = (index (_cmd_index w) + 4) mod RAM_CMD_SIZE /\
  _cmd_index (snd (Cmd command w)) = fst (Cmd command w).
Proof.
  intros Hi address. split; [subst address; lia|].
  assert (Ha : 0 <= address < 2 ^ 22)
    by (subst address; unfold RAM_CMD, RAM_CMD_SIZE in *;
        change (2 ^ 22) with 4194304; lia).
  destruct (write32_frame (Cmd command) address command w Ha (Cmd_hal command w))
    as (H1 & H2 & H3 & H4).
  split; [exact H1|]. split; [exact H2|]. split; [exact H3|]. split; [exact H4|].
  unfold Cmd. rewrite !bind_run. unfold get, ret, set_cmd_index, modify.
  cbn [fst snd _cmd_index]. split; [|reflexivity].
  unfold index. change RAM_CMD_SIZE with (2 ^ 12).
  apply Index_add_assign_mod. lia.
Qed.

Lemma Cmd_frame_witness :
  let w := fresh_world (fun _ => 0) 4092 in
  let address := RAM_CMD + index (_cmd_index w) in
  RAM_CMD <= address < RAM_CMD + RAM_CMD_SIZE /\
  added_transactions (Cmd ENC_CMD_GETPTR) w = [HOSTCMD_WRITE + address] /\
  take 3 (wire (Cmd ENC_CMD_GETPTR) w) = big_endian24 (HOSTCMD_WRITE + address) /\
  little_endian (drop 3 (wire (Cmd ENC_CMD_GETPTR) w)) = to_uint32 ENC_CMD_GETPTR /\
  length (wire (Cmd ENC_CMD_GETPTR) w) = 7%nat /\
  index (fst (Cmd ENC_CMD_GETPTR w)) = (index (_cmd_index w) + 4) mod RAM_CMD_SIZE /\
  _cmd_index (snd (Cmd ENC_CMD_GETPTR w)) = fst (Cmd ENC_CMD_GETPTR w).
Proof.
  apply (Cmd_frame ENC_CMD_GETPTR (fresh_world (fun _ => 0) 4092)).
  vm_compute. split; [discriminate | reflexivity].
Defined.

(** X18: [DLAdd], with the display-list index inside the display list: one
    write transaction, addressed inside the display list at the index,
    carrying the four bytes of the word, least significant first; the
    index moves on by 4 and wraps at the end of the display list. *)
Theorem DLAdd_frame (value : Z) (w : World) :
  0 <= index (_dl_index w) < RAM_DL_SIZE ->
  let address := RAM_DL + index (_dl_index w) in
  RAM_DL <= address < RAM_DL + RAM_DL_SIZE /\
  added_transactions (DLAdd value) w = [HOSTCMD_WRITE + address] /\
  take 3 (wire (DLAdd value) w) = big_endian24 (HOSTCMD_WRITE + address) /\
  little_endian (drop 3 (wire (DLAdd value) w)) = to_uint32 value /\
  length (wire (DLAdd value) w) = 7%nat /\
  index (fst (DLAdd value w)) = (index (_dl_index w) + 4) mod RAM_DL_SIZE /\
  _dl_index (snd (DLAdd value w)) = fst (DLAdd value w).
Proof.
  intros Hi address. split; [subst address; lia|].
  assert (Ha : 0 <= address < 2 ^ 22)
    by (subst address; unfold RAM_DL, RAM_DL_SIZE in *;
        change (2 ^ 22) with 4194304; lia).
  destruct (write32_frame (DLAdd value) address value w Ha (DLAdd_hal value w))
    as (H1 & H2 & H3 & H4).
  split; [exact H1|]. split; [exact H2|]. split; [exact H3|]. split; [exact H4|].
  unfold DLAdd. rewrite !bind_run. unfold get, ret, set_dl_index, modify.
  cbn [fst snd _dl_index]. split; [|reflexivity].
  unfold index. change RAM_DL_SIZE with (2 ^ 13).
  apply Index_add_assign_mod. lia.
Qed.

Lemma DLAdd_frame_witness :
  let w := snd (DLResetIndex 8188 (fresh_world (fun _ => 0) 0)) in
  let address := RAM_DL + index (_dl_index w) in
  RAM_DL <= address < RAM_DL + RAM_DL_SIZE /\
  added_transactions (DLAdd (ENC_CLEAR 1 1 1)) w = [HOSTCMD_WRITE + address] /\
  take 3 (wire (DLAdd (ENC_CLEAR 1 1 1)) w) = big_endian24 (HOSTCMD_WRITE + address) /\
  little_endian (drop 3 (wire (DLAdd (ENC_CLEAR 1 1 1)) w))
  = to_uint32 (ENC_CLEAR 1 1 1) /\
  length (wire (DLAdd (ENC_CLEAR 1 1 1)) w) = 7%nat /\
  index (fst (DLAdd (ENC_CLEAR 1 1 1) w)) = (index (_dl_index w) + 4) mod RAM_DL_SIZE /\
  _dl_index (snd (DLAdd (ENC_CLEAR 1 1 1) w)) = fst (DLAdd (ENC_CLEAR 1 1 1) w).
Proof.
  apply (DLAdd_frame (ENC_CLEAR 1 1 1)
           (snd (DLResetIndex 8188 (fresh_world (fun _ => 0) 0)))).
  vm_compute. split; [discriminate | reflexivity].
Defined.

(** ** Waiting for the co-processor *)

Lemma RegRead16_effect address22 w :
  fst (RegRead16 address22 w) = polled16 w 0 /\
  transfers (_hal (snd (RegRead16 address22 w))) = (transfers (_hal w) + 6)%nat /\
  chip (_hal (snd (RegRead16 address22 w))) = chip (_hal w).
Proof.
  destruct (BeginMemoryTransaction_transfers address22 false w) as [Ht Hc].
  unfold RegRead16. rewrite bind_run, hal_run. cbn [fst snd _hal].
  set (w1 := snd (BeginMemoryTransaction address22 false w)) in *.
  split; [|split].
  - rewrite Receive16_value. unfold answers, polled16. cbn [seq map].
    rewrite Hc, Ht.
    replace (transfers (_hal w) + 4 + 0)%nat
      with (transfers (_hal w) + 6 * 0 + 4)%nat by lia.
    replace (transfers (_hal w) + 4 + 1)%nat
      with (transfers (_hal w) + 6 * 0 + 5)%nat by lia.
    reflexivity.
  - unfold Receive16, bind, ret, Transfer. cbn [fst snd transfers]. lia.
  - unfold Receive16, bind, ret, Transfer. cbn [fst snd chip]. exact Hc.
Qed.

Lemma CmdIsBusy_effect pError w :
  fst (CmdIsBusy pError w)
  = negb (polled16 w 0 =? READ_INDEX_ERROR)
    && negb (polled16 w 0 =? index (_cmd_index w)) /\
  transfers (_hal (snd (CmdIsBusy pError w))) = (transfers (_hal w) + 6)%nat /\
  chip (_hal (snd (CmdIsBusy pError w))) = chip (_hal w) /\
  _cmd_index (snd (CmdIsBusy pError w)) = _cmd_index w /\
  bool_cells (snd (CmdIsBusy pError w))
  = match pError with
    | Some p => <[p := (polled16 w 0 =? READ_INDEX_ERROR)]> (bool_cells w)
    | None => bool_cells w
    end.
Proof.
  unfold CmdIsBusy. rewrite !bind_run. unfold get, ret, store_bool, modify.
  destruct (RegRead16_effect REG_CMD_READ w) as (Hv & Ht & Hc).
  pose proof (RegRead16_cmd_index REG_CMD_READ w) as Hidx.
  pose proof (RegRead16_bool_cells REG_CMD_READ w) as Hcells.
  revert Hv Ht Hc Hidx Hcells.
  generalize (snd (RegRead16 REG_CMD_READ w)).
  generalize (fst (RegRead16 REG_CMD_READ w)).
  intros ri w1 -> Ht Hc Hidx Hcells.
  destruct pError as [p|];
    cbn [fst snd _hal _cmd_index bool_cells]; rewrite Hidx, Hcells;
    (split; [reflexivity|]); (split; [exact Ht|]); (split; [exact Hc|]);
    split; reflexivity.
Qed.

Lemma polled16_after_poll pError w j :
  polled16 (snd (CmdIsBusy pError w)) j = polled16 w (S j).
Proof.
  destruct (CmdIsBusy_effect pError w) as (_ & Ht & Hc & _).
  unfold polled16. rewrite Ht, Hc.
  replace (transfers (_hal w) + 6 + 6 * j + 4)%nat
    with (transfers (_hal w) + 6 * S j + 4)%nat by lia.
  replace (transfers (_hal w) + 6 + 6 * j + 5)%nat
    with (transfers (_hal w) + 6 * S j + 5)%nat by lia.
  reflexivity.
Qed.




(** X20: As long as the co-processor is seen busy, [CmdWaitComplete] goes on
    polling: if every one of the polls allowed finds it busy, the loop has
    not ended. *)
Theorem CmdWaitComplete_polls_while_busy
    (fuel : nat) (pError : option nat) (w : World) :
  (forall i, (i < fuel)%nat -> seen_busy w i) ->
  fst (CmdWaitComplete fuel pError w) = None /\
  emitted w (snd (CmdWaitComplete fuel pError w)) = 6 * Z.of_nat fuel.
Proof.
  revert w. induction fuel as [|fuel IH]; intros w Hbusy; cbn [CmdWaitComplete].
  - unfold ret, emitted. cbn [fst snd]. split; [reflexivity | lia].
  - rewrite bind_run.
    destruct (CmdIsBusy_effect pError w) as (Hb & Ht & Hc & Hi & Hcells).
    rewrite Hb.
    assert (Hyes : negb (polled16 w 0 =? READ_INDEX_ERROR)
                   && negb (polled16 w 0 =? index (_cmd_index w)) = true).
    { destruct (Hbusy O ltac:(lia)) as [H1 H2].
      apply Z.eqb_neq in H1, H2. rewrite H1, H2. reflexivity. }
    rewrite Hyes.
    destruct (IH (snd (CmdIsBusy pError w))) as [H1 H2].
    + intros i Hi'. unfold seen_busy. rewrite polled16_after_poll, Hi.
      apply Hbusy. lia.
    + split; [exact H1|]. unfold emitted in *. rewrite Ht in H2. lia.
Qed.

Lemma CmdWaitComplete_polls_while_busy_witness :
  let w := fresh_world (fun _ => 0) 8 in
  fst (CmdWaitComplete 3 None w) = None /\
  emitted w (snd (CmdWaitComplete 3 None w)) = 6 * Z.of_nat 3.
Proof.
  apply (CmdWaitComplete_polls_while_busy 3 None (fresh_world (fun _ => 0) 8)).
  intros i _. split; vm_compute; discriminate.
Defined.

(** ** Starting the co-processor *)




